(** * The background notification dispatcher

    A shallow embedding of the e-mail dispatcher of the task-workflow
    service: the [Email] ledger model (models/Email.js), the in-memory queue
    and its drain loop (services/emailService.js) and the batch reconciler
    (controllers/emailController.js).

    Conventions.  JavaScript numbers that hold counters and dates are
    integers ([Z]; a date is its epoch time).  [new Date()] and
    [Math.random()] are inputs of the operation that reads them.  A
    persistence call takes its fault as an input: [None] when the store
    answers, [Some msg] when it rejects with [msg].  An [async] function is
    cut at its [await]s: the part up to the first suspension is one function,
    every resumption another. *)

From Stdlib Require Import ZArith List Ascii String Bool Lia.
From Stdlib Require Import Sorting.Sorted Sorting.Permutation.
From Stdlib Require QArith.
Import ListNotations.
Local Open Scope string_scope.
Local Open Scope list_scope.
Local Open Scope Z_scope.

(** ** Exceptions *)

(** [Error] is an exception made by [new Error(message)] in the code
    below, [StoreError] one the store rejects a call with. *)
Inductive Exception :=
| Error (message : string)
| StoreError (message : string).

Definition message_of (e : Exception) : string :=
  match e with
  | Error m => m
  | StoreError m => m
  end.

Inductive Result (A : Type) : Type :=
| Ok (a : A)
| Throw (e : Exception).
Arguments Ok {A} a.
Arguments Throw {A} e.

Definition Fault := option string.

(** ** Logger (utils/logger.js), kept as the list of messages written *)

Inductive Level := ERROR | WARN | INFO.

Definition LogLine : Type := Level * string.

(** ** models/Email.js *)

Module Email.

Inductive Status := pending | processing | sent | failed.

Inductive Priority := low | normal | high | urgent.

Inductive Type_ :=
| welcome | task_assignment | task_update | task_reminder
| task_completion | reminder | notification.

(** The values stored in the document: the schema declares both fields as
    [String] with an [enum]. *)
Definition priority_str (p : Priority) : string :=
  match p with
  | low => "low" | normal => "normal" | high => "high" | urgent => "urgent"
  end.

Definition status_eqb (a b : Status) : bool :=
  match a, b with
  | pending, pending | processing, processing
  | sent, sent | failed, failed => true
  | _, _ => false
  end.

Record t := mk {
  id : Z;
  to : string;
  subject : string;
  content : string;
  type : Type_;
  status : Status;
  priority : Priority;
  recipient : Z;
  sender : Z;
  relatedTask : option Z;
  scheduledAt : Z;
  processedAt : option Z;
  sentAt : option Z;
  attempts : Z;
  maxAttempts : Z;
  errorMessage : option string;
  createdAt : Z;
  updatedAt : Z
}.

Definition set_status (s : Status) (e : t) : t :=
  mk (id e) (to e) (subject e) (content e) (type e) s (priority e)
     (recipient e) (sender e) (relatedTask e) (scheduledAt e)
     (processedAt e) (sentAt e) (attempts e) (maxAttempts e)
     (errorMessage e) (createdAt e) (updatedAt e).

Definition set_processedAt (d : option Z) (e : t) : t :=
  mk (id e) (to e) (subject e) (content e) (type e) (status e) (priority e)
     (recipient e) (sender e) (relatedTask e) (scheduledAt e)
     d (sentAt e) (attempts e) (maxAttempts e)
     (errorMessage e) (createdAt e) (updatedAt e).

Definition set_sentAt (d : option Z) (e : t) : t :=
  mk (id e) (to e) (subject e) (content e) (type e) (status e) (priority e)
     (recipient e) (sender e) (relatedTask e) (scheduledAt e)
     (processedAt e) d (attempts e) (maxAttempts e)
     (errorMessage e) (createdAt e) (updatedAt e).

Definition set_attempts (n : Z) (e : t) : t :=
  mk (id e) (to e) (subject e) (content e) (type e) (status e) (priority e)
     (recipient e) (sender e) (relatedTask e) (scheduledAt e)
     (processedAt e) (sentAt e) n (maxAttempts e)
     (errorMessage e) (createdAt e) (updatedAt e).

Definition set_errorMessage (m : option string) (e : t) : t :=
  mk (id e) (to e) (subject e) (content e) (type e) (status e) (priority e)
     (recipient e) (sender e) (relatedTask e) (scheduledAt e)
     (processedAt e) (sentAt e) (attempts e) (maxAttempts e)
     m (createdAt e) (updatedAt e).

Definition set_updatedAt (d : Z) (e : t) : t :=
  mk (id e) (to e) (subject e) (content e) (type e) (status e) (priority e)
     (recipient e) (sender e) (relatedTask e) (scheduledAt e)
     (processedAt e) (sentAt e) (attempts e) (maxAttempts e)
     (errorMessage e) (createdAt e) d.

Definition set_createdAt (d : Z) (e : t) : t :=
  mk (id e) (to e) (subject e) (content e) (type e) (status e) (priority e)
     (recipient e) (sender e) (relatedTask e) (scheduledAt e)
     (processedAt e) (sentAt e) (attempts e) (maxAttempts e)
     (errorMessage e) d (updatedAt e).

(** [trim: true] on [subject] and [content]: white space is cut from both
    ends when the path is set (the characters below; a string here is a
    string of bytes, and the white space outside ASCII is left alone). *)
Definition is_space (c : ascii) : bool :=
  match N_of_ascii c with
  | 9%N | 10%N | 11%N | 12%N | 13%N | 32%N => true
  | _ => false
  end.

Fixpoint trimStart (s : string) : string :=
  match s with
  | EmptyString => EmptyString
  | String c rest => if is_space c then trimStart rest else s
  end.

Fixpoint trimEnd (s : string) : string :=
  match s with
  | EmptyString => EmptyString
  | String c rest =>
      match trimEnd rest with
      | EmptyString => if is_space c then EmptyString else String c EmptyString
      | kept => String c kept
      end
  end.

Definition trim (s : string) : string := trimEnd (trimStart s).

(** The collection, in natural (insertion) order. *)
Definition Collection := list t.

Definition findById (i : Z) (db : Collection) : option t :=
  find (fun e => id e =? i) db.

Fixpoint replace (d : t) (db : Collection) : Collection :=
  match db with
  | [] => []
  | e :: rest => if id e =? id d then d :: rest else e :: replace d rest
  end.

(** [isModified('status')] of a document about to be saved: a new document
    has every path it carries modified, a loaded one the paths that differ
    from what is stored. *)
Definition isModified_status (d : t) (db : Collection) : bool :=
  match findById (id d) db with
  | Some stored => negb (status_eqb (status stored) (status d))
  | None => true
  end.

(** [emailSchema.pre('save', ...)] *)
Definition pre_save (now : Z) (modified : bool) (d : t) : t :=
  let d :=
    if modified && status_eqb (status d) sent
    then set_sentAt (Some now) d else d in
  if modified && status_eqb (status d) processing
  then set_processedAt (Some now) d else d.

(** [document.save()]: the hook runs, [timestamps] stamps [updatedAt]
    (and [createdAt] on the first save), and the document is written
    unless the store rejects the write.  The in-memory document keeps what
    was set either way. *)
Definition save (fault : Fault) (now : Z) (d : t) (db : Collection)
  : Result unit * t * Collection :=
  let d' := pre_save now (isModified_status d db) d in
  let d' :=
    match findById (id d) db with
    | Some _ => d'
    | None => set_createdAt now d'
    end in
  let d' := set_updatedAt now d' in
  match fault with
  | Some msg => (Throw (StoreError msg), d', db)
  | None =>
      match findById (id d) db with
      | Some _ => (Ok tt, d', replace d' db)
      | None => (Ok tt, d', db ++ [d'])
      end
  end.

(** [emailSchema.methods.markAsProcessing] *)
Definition markAsProcessing (fault : Fault) (now : Z) (this : t)
    (db : Collection) :=
  let this := set_status processing this in
  let this := set_processedAt (Some now) this in
  let this := set_attempts (attempts this + 1) this in
  save fault now this db.

(** [emailSchema.methods.markAsSent] *)
Definition markAsSent (fault : Fault) (now : Z) (this : t)
    (db : Collection) :=
  let this := set_status sent this in
  let this := set_sentAt (Some now) this in
  save fault now this db.

(** [emailSchema.methods.markAsFailed] *)
Definition markAsFailed (fault : Fault) (now : Z) (message : string)
    (this : t) (db : Collection) :=
  let this := set_status failed this in
  let this := set_errorMessage (Some message) this in
  let this := set_processedAt (Some now) this in
  save fault now this db.

(** [emailSchema.methods.retry] *)
Definition retry (fault : Fault) (now : Z) (this : t) (db : Collection)
  : Result unit * t * Collection :=
  if attempts this <? maxAttempts this then
    let this := set_status pending this in
    let this := set_processedAt None this in
    let this := set_sentAt None this in
    let this := set_errorMessage None this in
    save fault now this db
  else (Throw (Error "Maximum retry attempts exceeded"), this, db).

(** [emailSchema.methods.canRetry] *)
Definition canRetry (this : t) : bool :=
  status_eqb (status this) failed && (attempts this <? maxAttempts this).

(** *** Queries.  [sort] of the store is an insertion sort here: stable on
    the natural order, which fixes the order of ties that the store itself
    leaves open. *)

Fixpoint insert_by (le : t -> t -> bool) (x : t) (l : list t) : list t :=
  match l with
  | [] => [x]
  | y :: rest => if le x y then x :: l else y :: insert_by le x rest
  end.

Fixpoint sort_by (le : t -> t -> bool) (l : list t) : list t :=
  match l with
  | [] => []
  | x :: rest => insert_by le x (sort_by le rest)
  end.

(** [.limit(n)]: the store reads a limit of 0 as no limit. *)
Definition limit (n : nat) (l : list t) : list t :=
  match n with
  | O => l
  | _ => firstn n l
  end.

(** [{ priority: -1, scheduledAt: 1 }]: [priority] is a string field, so
    the store compares the stored strings; descending on it, then
    ascending on the date. *)
Definition pending_le (a b : t) : bool :=
  match String.compare (priority_str (priority b))
                       (priority_str (priority a)) with
  | Lt => true
  | Gt => false
  | Eq => scheduledAt a <=? scheduledAt b
  end.

(** [emailSchema.statics.getPendingEmails]; [populate] joins display
    fields of the referenced users and task and selects nothing. *)
Definition getPendingEmails (now : Z) (limit_ : nat) (db : Collection)
  : list t :=
  limit limit_
    (sort_by pending_le
       (filter (fun e => status_eqb (status e) pending
                         && (scheduledAt e <=? now)) db)).

(** [{ updatedAt: 1 }] *)
Definition failed_le (a b : t) : bool := updatedAt a <=? updatedAt b.

(** [emailSchema.statics.getFailedEmails] *)
Definition getFailedEmails (limit_ : nat) (db : Collection) : list t :=
  limit limit_
    (sort_by failed_le
       (filter (fun e => status_eqb (status e) failed
                         && (attempts e <? maxAttempts e)) db)).

(** [emailSchema.virtual('age')] *)
Definition age (now : Z) (this : t) : Z := now - createdAt this.

(** [emailSchema.virtual('isOverdue')] *)
Definition isOverdue (now : Z) (this : t) : bool :=
  if status_eqb (status this) pending then scheduledAt this <? now
  else false.

Section Retention.

(** [daysBefore d n] is the date that [setDate(getDate() - n)] makes of
    [d]: [n] calendar days earlier on the host's clock. *)
Variable daysBefore : Z -> Z -> Z.

(** [emailSchema.statics.cleanOldEmails], with the [deletedCount] of the
    answer and the collection that is left; [daysOld] is 30 when the caller
    gives none. *)
Definition cleanOldEmails (now : Z) (daysOld : option Z) (db : Collection)
  : nat * Collection :=
  let daysOld := match daysOld with Some n => n | None => 30 end in
  let cutoffDate := daysBefore now daysOld in
  let doomed (e : t) : bool :=
    (status_eqb (status e) sent || status_eqb (status e) failed)
    && (updatedAt e <? cutoffDate) in
  (List.length (filter doomed db), filter (fun e => negb (doomed e)) db).

End Retention.

(** The place of a stored priority in the ascending order of the strings:
    "high" < "low" < "normal" < "urgent". *)
Definition string_rank (p : Priority) : Z :=
  match p with
  | high => 0
  | low => 1
  | normal => 2
  | urgent => 3
  end.

End Email.

(** ** models/Task.js *)

Module Task.

Inductive Status := pending | in_progress | completed | cancelled.

Inductive Priority := low | medium | high | urgent.

Definition status_str (s : Status) : string :=
  match s with
  | pending => "pending"
  | in_progress => "in_progress"
  | completed => "completed"
  | cancelled => "cancelled"
  end.

Definition status_eqb (a b : Status) : bool :=
  match a, b with
  | pending, pending | in_progress, in_progress
  | completed, completed | cancelled, cancelled => true
  | _, _ => false
  end.

Definition priority_eqb (a b : Priority) : bool :=
  match a, b with
  | low, low | medium, medium | high, high | urgent, urgent => true
  | _, _ => false
  end.

(** An element of [attachments]; [attachment_id] is what [_id.toString()]
    gives. *)
Record Attachment := mkAttachment {
  attachment_id : string;
  filename : string;
  originalName : string;
  path : string;
  mimeType : string;
  size : Z;
  uploadedAt : Z
}.

(** The object handed to [addAttachment]. *)
Record AttachmentData := mkAttachmentData {
  data_filename : string;
  data_originalName : string;
  data_path : string;
  data_mimeType : string;
  data_size : Z;
  data_uploadedAt : option Z
}.

(** An element of [comments]. *)
Record Comment := mkComment {
  comment_id : string;
  comment_user : Z;
  comment_content : string;
  comment_createdAt : Z
}.

Record t := mk {
  id : Z;
  title : string;
  description : string;
  status : Status;
  priority : Priority;
  assignedTo : option Z;
  createdBy : option Z;
  attachments : list Attachment;
  dueDate : option Z;
  completedAt : option Z;
  estimatedHours : option QArith_base.Q;
  actualHours : option QArith_base.Q;
  tags : list string;
  comments : list Comment;
  isDeleted : bool;
  deletedAt : option Z;
  deletedBy : option Z;
  createdAt : Z;
  updatedAt : Z
}.

Definition set_status (v : Status) (e : t) : t :=
  mk (id e) (title e) (description e) v (priority e) (assignedTo e)
     (createdBy e) (attachments e) (dueDate e) (completedAt e)
     (estimatedHours e) (actualHours e) (tags e) (comments e) (isDeleted e)
     (deletedAt e) (deletedBy e) (createdAt e) (updatedAt e).

Definition set_assignedTo (v : option Z) (e : t) : t :=
  mk (id e) (title e) (description e) (status e) (priority e) v
     (createdBy e) (attachments e) (dueDate e) (completedAt e)
     (estimatedHours e) (actualHours e) (tags e) (comments e) (isDeleted e)
     (deletedAt e) (deletedBy e) (createdAt e) (updatedAt e).

Definition set_attachments (v : list Attachment) (e : t) : t :=
  mk (id e) (title e) (description e) (status e) (priority e) (assignedTo e)
     (createdBy e) v (dueDate e) (completedAt e) (estimatedHours e)
     (actualHours e) (tags e) (comments e) (isDeleted e) (deletedAt e)
     (deletedBy e) (createdAt e) (updatedAt e).

Definition set_completedAt (v : option Z) (e : t) : t :=
  mk (id e) (title e) (description e) (status e) (priority e) (assignedTo e)
     (createdBy e) (attachments e) (dueDate e) v (estimatedHours e)
     (actualHours e) (tags e) (comments e) (isDeleted e) (deletedAt e)
     (deletedBy e) (createdAt e) (updatedAt e).

Definition set_comments (v : list Comment) (e : t) : t :=
  mk (id e) (title e) (description e) (status e) (priority e) (assignedTo e)
     (createdBy e) (attachments e) (dueDate e) (completedAt e)
     (estimatedHours e) (actualHours e) (tags e) v (isDeleted e)
     (deletedAt e) (deletedBy e) (createdAt e) (updatedAt e).

Definition set_isDeleted (v : bool) (e : t) : t :=
  mk (id e) (title e) (description e) (status e) (priority e) (assignedTo e)
     (createdBy e) (attachments e) (dueDate e) (completedAt e)
     (estimatedHours e) (actualHours e) (tags e) (comments e) v
     (deletedAt e) (deletedBy e) (createdAt e) (updatedAt e).

Definition set_deletedAt (v : option Z) (e : t) : t :=
  mk (id e) (title e) (description e) (status e) (priority e) (assignedTo e)
     (createdBy e) (attachments e) (dueDate e) (completedAt e)
     (estimatedHours e) (actualHours e) (tags e) (comments e) (isDeleted e)
     v (deletedBy e) (createdAt e) (updatedAt e).

Definition set_deletedBy (v : option Z) (e : t) : t :=
  mk (id e) (title e) (description e) (status e) (priority e) (assignedTo e)
     (createdBy e) (attachments e) (dueDate e) (completedAt e)
     (estimatedHours e) (actualHours e) (tags e) (comments e) (isDeleted e)
     (deletedAt e) v (createdAt e) (updatedAt e).

Definition set_createdAt (v : Z) (e : t) : t :=
  mk (id e) (title e) (description e) (status e) (priority e) (assignedTo e)
     (createdBy e) (attachments e) (dueDate e) (completedAt e)
     (estimatedHours e) (actualHours e) (tags e) (comments e) (isDeleted e)
     (deletedAt e) (deletedBy e) v (updatedAt e).

Definition set_updatedAt (v : Z) (e : t) : t :=
  mk (id e) (title e) (description e) (status e) (priority e) (assignedTo e)
     (createdBy e) (attachments e) (dueDate e) (completedAt e)
     (estimatedHours e) (actualHours e) (tags e) (comments e) (isDeleted e)
     (deletedAt e) (deletedBy e) (createdAt e) v.

(** The collection, in natural (insertion) order. *)
Definition Collection := list t.

Definition findById (i : Z) (db : Collection) : option t :=
  find (fun e => id e =? i) db.

Fixpoint replace (d : t) (db : Collection) : Collection :=
  match db with
  | [] => []
  | e :: rest => if id e =? id d then d :: rest else e :: replace d rest
  end.

(** [taskSchema.pre('save', ...)] *)
Definition pre_save (this : t) : Result unit :=
  if (3 <? List.length (attachments this))%nat
  then Throw (Error "Maximum 3 attachments allowed per task")
  else Ok tt.

(** [document.save()].  Validation comes first ([invalid] is its
    rejection, if any: the schema bounds the length of a tag), then
    [timestamps], then the hook above, then the write ([fault] is its
    rejection).  [modified] tells whether the caller changed a path: an
    unchanged document that is not new is neither stamped nor written. *)
Definition save (modified : bool) (invalid fault : Fault) (now : Z)
    (d : t) (db : Collection) : Result unit * t * Collection :=
  match invalid with
  | Some msg => (Throw (StoreError msg), d, db)
  | None =>
      let isNew :=
        match findById (id d) db with Some _ => false | None => true end in
      let d := if isNew then set_createdAt now d else d in
      let d := if modified || isNew then set_updatedAt now d else d in
      match pre_save d with
      | Throw error => (Throw error, d, db)
      | Ok _ =>
          match fault with
          | Some msg => (Throw (StoreError msg), d, db)
          | None =>
              if isNew then (Ok tt, d, db ++ [d])
              else if modified then (Ok tt, d, replace d db)
              else (Ok tt, d, db)
          end
      end
  end.

(** [taskSchema.methods.addAttachment]; [oid] is the [_id] the new
    subdocument gets. *)
Definition addAttachment (oid : string) (now : Z)
    (attachmentData : AttachmentData) (invalid fault : Fault)
    (this : t) (db : Collection) : Result unit * t * Collection :=
  if (3 <=? List.length (attachments this))%nat then
    (Throw (Error "Maximum 3 attachments allowed per task"), this, db)
  else
    let attachment :=
      mkAttachment oid (data_filename attachmentData)
        (data_originalName attachmentData) (data_path attachmentData)
        (data_mimeType attachmentData) (data_size attachmentData)
        (match data_uploadedAt attachmentData with
         | Some d => d
         | None => now
         end) in
    let this := set_attachments (attachments this ++ [attachment]) this in
    save true invalid fault now this db.

(** [taskSchema.methods.removeAttachment] *)
Definition removeAttachment (attachmentId : string) (now : Z)
    (invalid fault : Fault) (this : t) (db : Collection)
  : Result unit * t * Collection :=
  let kept :=
    filter (fun attachment =>
              negb (String.eqb (attachment_id attachment) attachmentId))
           (attachments this) in
  let modified :=
    negb (Nat.eqb (List.length kept) (List.length (attachments this))) in
  save modified invalid fault now (set_attachments kept this) db.

(** [taskSchema.methods.updateStatus]; [newStatus] is one of the four
    values of the enum, any other string being rejected by validation. *)
Definition updateStatus (newStatus : Status) (userId : Z) (oid : string)
    (now : Z) (invalid fault : Fault) (this : t) (db : Collection)
  : Result unit * t * Collection :=
  let this := set_status newStatus this in
  let this :=
    if status_eqb newStatus completed then
      set_completedAt (Some now) this
    else if status_eqb (status this) completed
            && negb (status_eqb newStatus completed) then
      set_completedAt None this
    else this in
  let this :=
    set_comments
      (comments this
       ++ [mkComment oid userId
             ("Status changed to " ++ status_str newStatus)%string now])
      this in
  save true invalid fault now this db.

(** [taskSchema.methods.assignTask] *)
Definition assignTask (newAssigneeId assignedBy : Z) (oid : string)
    (now : Z) (invalid fault : Fault) (this : t) (db : Collection)
  : Result unit * t * Collection :=
  let this := set_assignedTo (Some newAssigneeId) this in
  let this :=
    set_comments
      (comments this
       ++ [mkComment oid assignedBy "Task reassigned to new user" now])
      this in
  save true invalid fault now this db.

(** [taskSchema.methods.addComment] *)
Definition addComment (userId : Z) (content : string) (oid : string)
    (now : Z) (invalid fault : Fault) (this : t) (db : Collection)
  : Result unit * t * Collection :=
  let this :=
    set_comments (comments this ++ [mkComment oid userId content now])
                 this in
  save true invalid fault now this db.

Definition option_eqb (a b : option Z) : bool :=
  match a, b with
  | Some x, Some y => x =? y
  | None, None => true
  | _, _ => false
  end.

(** [taskSchema.methods.softDelete] *)
Definition softDelete (userId : Z) (now : Z) (invalid fault : Fault)
    (this : t) (db : Collection) : Result unit * t * Collection :=
  let modified :=
    negb (isDeleted this
          && option_eqb (deletedAt this) (Some now)
          && option_eqb (deletedBy this) (Some userId)) in
  let this := set_isDeleted true this in
  let this := set_deletedAt (Some now) this in
  let this := set_deletedBy (Some userId) this in
  save modified invalid fault now this db.

(** [taskSchema.methods.restore] *)
Definition restore (now : Z) (invalid fault : Fault) (this : t)
    (db : Collection) : Result unit * t * Collection :=
  let modified :=
    isDeleted this
    || negb (option_eqb (deletedAt this) None)
    || negb (option_eqb (deletedBy this) None) in
  let this := set_isDeleted false this in
  let this := set_deletedAt None this in
  let this := set_deletedBy None this in
  save modified invalid fault now this db.

(** [taskSchema.virtual('completionTime')]: [None] is [null]. *)
Definition completionTime (this : t) : option Z :=
  if status_eqb (status this) completed then
    match completedAt this with
    | Some finished => Some (finished - createdAt this)
    | None => None
    end
  else None.

(** [taskSchema.virtual('isOverdue')]: a task with no [dueDate] compares
    [undefined] with the date, which is false. *)
Definition isOverdue (now : Z) (this : t) : bool :=
  if status_eqb (status this) completed then false
  else match dueDate this with
       | Some due => due <? now
       | None => false
       end.

(** The role handed to [getTasksByRole]: the string the function compares
    with, or the number that [ROLES] gives a user. *)
Inductive Role :=
| RoleString (s : string)
| RoleNumber (n : Z).

(** [taskSchema.statics.getTasksByRole] *)
Definition getTasksByRole (userId : Z) (userRole : Role) (db : Collection)
  : list t :=
  let role_is (name : string) : bool :=
    match userRole with
    | RoleString s => String.eqb s name
    | RoleNumber _ => false
    end in
  filter
    (fun e =>
       negb (isDeleted e)
       && (if role_is "employee" then option_eqb (assignedTo e) (Some userId)
           else if role_is "manager" then
             option_eqb (createdBy e) (Some userId)
             || option_eqb (assignedTo e) (Some userId)
           else true))
    db.

(** A call of one of the seven methods, with its arguments and the inputs
    it reads. *)
Inductive Call :=
| AddAttachment (oid : string) (now : Z) (attachmentData : AttachmentData)
| RemoveAttachment (attachmentId : string) (now : Z)
| UpdateStatus (newStatus : Status) (userId : Z) (oid : string) (now : Z)
| AssignTask (newAssigneeId assignedBy : Z) (oid : string) (now : Z)
| AddComment (userId : Z) (content : string) (oid : string) (now : Z)
| SoftDelete (userId : Z) (now : Z)
| Restore (now : Z).

Definition call (c : Call) (invalid fault : Fault) (this : t)
    (db : Collection) : Result unit * t * Collection :=
  match c with
  | AddAttachment oid now attachmentData =>
      addAttachment oid now attachmentData invalid fault this db
  | RemoveAttachment attachmentId now =>
      removeAttachment attachmentId now invalid fault this db
  | UpdateStatus newStatus userId oid now =>
      updateStatus newStatus userId oid now invalid fault this db
  | AssignTask newAssigneeId assignedBy oid now =>
      assignTask newAssigneeId assignedBy oid now invalid fault this db
  | AddComment userId content oid now =>
      addComment userId content oid now invalid fault this db
  | SoftDelete userId now => softDelete userId now invalid fault this db
  | Restore now => restore now invalid fault this db
  end.

(** The document a method leaves in memory. *)
Definition doc (r : Result unit * t * Collection) : t := snd (fst r).

Definition within_limit (e : t) : Prop :=
  (List.length (attachments e) <= 3)%nat.

End Task.

(** ** services/emailService.js *)

Module EmailService.

(** The object literal a producer builds.  [attempts] and [maxAttempts]
    are not written by any producer; they stand for own properties a
    caller could pass under the names [addToQueue] sets itself. *)
Record EmailData := mkData {
  data_to : string;
  data_subject : string;
  data_content : string;
  data_type : Email.Type_;
  data_recipient : Z;
  data_sender : Z;
  data_relatedTask : option Z;
  data_priority : Email.Priority;
  data_attempts : option Z;
  data_maxAttempts : option Z
}.

(** An element of [emailQueue].  [id] is [Date.now() + Math.random()],
    kept as the pair of its two summands. *)
Record Job := mkJob {
  to : string;
  subject : string;
  content : string;
  type : Email.Type_;
  recipient : Z;
  sender : Z;
  relatedTask : option Z;
  priority : Email.Priority;
  id : Z * Z;
  addedAt : Z;
  attempts : Z;
  maxAttempts : Z
}.

(** The continuation of the one [processQueue] call that can be live:
    not started or returned, suspended in [await processEmailJob(emailJob)],
    or suspended in the delay that follows a delivery. *)
Inductive Worker :=
| Idle
| AwaitingDelivery (emailJob : Job)
| AwaitingDelay.

Record State := mkState {
  emailQueue : list Job;
  isProcessing : bool;
  worker : Worker;
  emails : Email.Collection;
  logs : list LogLine
}.

Definition log (l : Level) (message : string) (st : State) : State :=
  mkState (emailQueue st) (isProcessing st) (worker st) (emails st)
          (logs st ++ [(l, message)]).

Definition set_emailQueue (q : list Job) (st : State) : State :=
  mkState q (isProcessing st) (worker st) (emails st) (logs st).

Definition set_isProcessing (b : bool) (st : State) : State :=
  mkState (emailQueue st) b (worker st) (emails st) (logs st).

Definition set_worker (w : Worker) (st : State) : State :=
  mkState (emailQueue st) (isProcessing st) w (emails st) (logs st).

Definition set_emails (db : Email.Collection) (st : State) : State :=
  mkState (emailQueue st) (isProcessing st) (worker st) db (logs st).

(** [{ ...emailData, id, addedAt, attempts: 0, maxAttempts: 3 }] *)
Definition newJob (emailData : EmailData) (now random : Z) : Job :=
  mkJob (data_to emailData) (data_subject emailData)
        (data_content emailData) (data_type emailData)
        (data_recipient emailData) (data_sender emailData)
        (data_relatedTask emailData) (data_priority emailData)
        (now, random) now 0 3.

(** [emailJob.attempts++; emailJob.addedAt = new Date()] *)
Definition requeued (now : Z) (j : Job) : Job :=
  mkJob (to j) (subject j) (content j) (type j) (recipient j) (sender j)
        (relatedTask j) (priority j) (id j) now (attempts j + 1)
        (maxAttempts j).

(** [processQueue], from the test of its [while] to the next suspension:
    [emailQueue.shift()] and the synchronous start of [processEmailJob],
    or the end of the function when the queue is empty. *)
Definition loop (st : State) : State :=
  match emailQueue st with
  | [] =>
      log INFO "Email queue processing completed"
        (set_worker Idle (set_isProcessing false st))
  | emailJob :: rest =>
      log INFO "Processing email job"
        (set_worker (AwaitingDelivery emailJob) (set_emailQueue rest st))
  end.

(** [processQueue], up to its first suspension. *)
Definition processQueue (st : State) : State :=
  if isProcessing st || (Nat.eqb (List.length (emailQueue st)) 0) then st
  else loop (log INFO "Starting email queue processing"
               (set_isProcessing true st)).

(** The [catch] block of [processQueue]. *)
Definition after_failure (now : Z) (emailJob : Job) (st : State) : State :=
  let st := log ERROR "Error processing email job" st in
  if attempts emailJob <? maxAttempts emailJob then
    log WARN "Email job requeued for retry"
      (set_emailQueue (emailQueue st ++ [requeued now emailJob]) st)
  else
    log ERROR "Email job failed permanently" st.

(** The promise of [simulateEmailProcessing] settles: [ok] is
    [Math.random() < 0.9].  On success [processEmailJob] returns and the
    loop suspends in its delay; on failure the [catch] block runs and the
    loop goes on without suspending. *)
Definition settle (ok : bool) (now : Z) (st : State) : State :=
  match worker st with
  | AwaitingDelivery emailJob =>
      if ok then
        set_worker AwaitingDelay
          (log INFO "Email job processed successfully" st)
      else
        loop (after_failure now emailJob st)
  | _ => st
  end.

(** The timer of the delay between two jobs fires. *)
Definition delay_elapsed (st : State) : State :=
  match worker st with
  | AwaitingDelay => loop st
  | _ => st
  end.

(** [addToQueue] *)
Definition addToQueue (emailData : EmailData) (now random : Z)
    (st : State) : State :=
  let st :=
    set_emailQueue (emailQueue st ++ [newJob emailData now random]) st in
  let st := log INFO "Email queued" st in
  if negb (isProcessing st) then processQueue st else st.

(** [getQueueStatus]: [queueLength], [isProcessing], [pendingEmails],
    [processingStatus]. *)
Definition getQueueStatus (st : State) : nat * bool * nat * string :=
  (List.length (emailQueue st), isProcessing st,
   List.length (emailQueue st),
   if isProcessing st then "active" else "idle").

(** [clearQueue], with the [clearedCount] it returns. *)
Definition clearQueue (st : State) : nat * State :=
  (List.length (emailQueue st),
   log INFO "Email queue cleared" (set_emailQueue [] st)).

(** [new Email(emailData)]: the schema defaults fill what the literal
    leaves out; [oid] is the fresh [_id]. *)
Definition newEmail (oid now : Z) (emailData : EmailData) : Email.t :=
  Email.mk oid (data_to emailData) (Email.trim (data_subject emailData))
    (Email.trim (data_content emailData)) (data_type emailData)
    Email.pending
    (data_priority emailData) (data_recipient emailData)
    (data_sender emailData) (data_relatedTask emailData) now None None
    (match data_attempts emailData with Some n => n | None => 0 end)
    (match data_maxAttempts emailData with Some n => n | None => 3 end)
    None now now.

Record User := mkUser {
  user_id : Z;
  user_name : string;
  user_email : string;
  user_role : string;
  user_createdAt : Z
}.

Section Templates.

(** [new Date(d).toLocaleDateString()] depends on the host's locale. *)
Variable toLocaleDateString : Z -> string.

(** [emailTemplates.welcome] *)
Definition emailTemplates_welcome (user : User) : string * string :=
  (("Welcome to Task Workflow, " ++ user_name user ++ "!")%string,
   ("
      <h2>Welcome to Task Workflow!</h2>
      <p>Hi " ++ user_name user ++ ",</p>
      <p>Welcome to our task management system. Your account has been successfully created.</p>
      <p><strong>Account Details:</strong></p>
      <ul>
        <li>Email: " ++ user_email user ++ "</li>
        <li>Role: " ++ user_role user ++ "</li>
        <li>Created: " ++ toLocaleDateString (user_createdAt user) ++ "</li>
      </ul>
      <p>You can now log in and start managing your tasks.</p>
      <p>Best regards,<br>Task Workflow Team</p>
    ")%string).

(** [sendWelcomeEmail]: the job is queued first, then the ledger record
    is saved inside a [try] whose [catch] only logs. *)
Definition sendWelcomeEmail (user : User) (now random oid : Z)
    (fault : Fault) (st : State) : Result unit * State :=
  let template := emailTemplates_welcome user in
  let emailData :=
    mkData (user_email user) (fst template) (snd template) Email.welcome
           (user_id user) (user_id user) None Email.normal None None in
  let st := addToQueue emailData now random st in
  let email := newEmail oid now emailData in
  match Email.save fault now email (emails st) with
  | (Ok _, _, db) =>
      (Ok tt, log INFO "Email welcome_queued" (set_emails db st))
  | (Throw _, _, _) =>
      (Ok tt, log ERROR "Error saving welcome email to database" st)
  end.

End Templates.

(** [getFailedEmails]: [fault] is the rejection of the query, if any. *)
Definition getFailedEmails (limit : nat) (fault : Fault) (st : State)
  : Result (list Email.t) * State :=
  match fault with
  | None => (Ok (Email.getFailedEmails limit (emails st)), st)
  | Some msg =>
      (Throw (StoreError msg), log ERROR "Error getting failed emails" st)
  end.

(** [retryFailedEmail]: every [throw] inside the [try] is logged by the
    [catch] and thrown again.  [lookup] is the rejection of
    [Email.findById], if any, and [fault] that of the write in
    [email.retry()]. *)
Definition retryFailedEmail (emailId : Z) (now random : Z)
    (lookup fault : Fault) (st : State) : Result Email.t * State :=
  let rethrow (error : Exception) (st : State) : Result Email.t * State :=
    (Throw error, log ERROR "Error retrying failed email" st) in
  match lookup, Email.findById emailId (emails st) with
  | Some msg, _ => rethrow (StoreError msg) st
  | None, None => rethrow (Error "Email not found") st
  | None, Some email =>
      if negb (Email.canRetry email) then
        rethrow (Error "Email cannot be retried") st
      else
        match Email.retry fault now email (emails st) with
        | (Throw error, _, _) => rethrow error st
        | (Ok _, email, db) =>
            let st := set_emails db st in
            let emailData :=
              mkData (Email.to email) (Email.subject email)
                     (Email.content email) (Email.type email)
                     (Email.recipient email) (Email.sender email)
                     (Email.relatedTask email) (Email.priority email)
                     None None in
            let st := addToQueue emailData now random st in
            (Ok email, log INFO "Failed email retried" st)
        end
  end.

(** A drain of the queue with no other activity in between: the worker is
    resumed until it returns or [fuel] resumptions were made.  [oracle k]
    is the outcome and the time of the [k]-th simulated delivery; the
    result lists the jobs whose delivery was simulated, in order. *)
Fixpoint run (fuel : nat) (oracle : nat -> bool * Z) (k : nat) (st : State)
  : list Job * State :=
  match fuel with
  | O => ([], st)
  | S fuel =>
      match worker st with
      | Idle => ([], st)
      | AwaitingDelivery emailJob =>
          let (deliveries, st') :=
            run fuel oracle (S k)
                (settle (fst (oracle k)) (snd (oracle k)) st) in
          (emailJob :: deliveries, st')
      | AwaitingDelay => run fuel oracle k (delay_elapsed st)
      end
  end.

(** Deliveries a job can still get: the one it waits for, and one more
    for each attempt left. *)
Definition deliveries_left (j : Job) : nat :=
  Z.to_nat (maxAttempts j - attempts j) + 1.

(** Resumptions a job can still cause: its deliveries and one delay. *)
Definition weight (j : Job) : nat := S (deliveries_left j).

Definition total (w : Job -> nat) (q : list Job) : nat :=
  fold_right (fun j n => (w j + n)%nat) O q.

Definition measure (st : State) : nat :=
  (total weight (emailQueue st) +
   match worker st with
   | Idle => 0
   | AwaitingDelivery j => weight j
   | AwaitingDelay => 1
   end)%nat.

Definition deliveries_bound (st : State) : nat :=
  (total deliveries_left (emailQueue st) +
   match worker st with
   | AwaitingDelivery j => deliveries_left j
   | _ => 0
   end)%nat.

(** A returned worker left the queue empty and the flag down. *)
Definition quiescent (st : State) : Prop :=
  worker st = Idle -> emailQueue st = [] /\ isProcessing st = false.

Section Producers.

(** [emailTemplates.taskAssignment], [taskUpdate], [taskReminder] and
    [taskCompleted]: pure functions that return a subject and a content.
    Their text is not looked into below; the two that read [new Date()]
    take the time. *)
Variable taskAssignment : Task.t -> User -> User -> string * string.
Variable taskUpdate : Task.t -> User -> string -> string -> Z
                      -> string * string.
Variable taskReminder : Task.t -> User -> string * string.
Variable taskCompleted : Task.t -> User -> Z -> string * string.

(** [sendTaskAssignmentEmail] *)
Definition sendTaskAssignmentEmail (task : Task.t)
    (assignee assignedBy : User) (now random oid : Z) (fault : Fault)
    (st : State) : Result unit * State :=
  let template := taskAssignment task assignee assignedBy in
  let emailData :=
    mkData (user_email assignee) (fst template) (snd template)
           Email.task_assignment (user_id assignee) (user_id assignedBy)
           (Some (Task.id task))
           (if Task.priority_eqb (Task.priority task) Task.urgent
            then Email.high else Email.normal)
           None None in
  let st := addToQueue emailData now random st in
  let email := newEmail oid now emailData in
  match Email.save fault now email (emails st) with
  | (Ok _, _, db) =>
      (Ok tt, log INFO "Email task_assignment_queued" (set_emails db st))
  | (Throw _, _, _) =>
      (Ok tt,
       log ERROR "Error saving task assignment email to database" st)
  end.

(** [sendTaskUpdateEmail] *)
Definition sendTaskUpdateEmail (task : Task.t) (user : User)
    (oldStatus newStatus : string) (now random oid : Z) (fault : Fault)
    (st : State) : Result unit * State :=
  let template := taskUpdate task user oldStatus newStatus now in
  let emailData :=
    mkData (user_email user) (fst template) (snd template)
           Email.task_update (user_id user) (user_id user)
           (Some (Task.id task)) Email.low None None in
  let st := addToQueue emailData now random st in
  let email := newEmail oid now emailData in
  match Email.save fault now email (emails st) with
  | (Ok _, _, db) =>
      (Ok tt, log INFO "Email task_update_queued" (set_emails db st))
  | (Throw _, _, _) =>
      (Ok tt, log ERROR "Error saving task update email to database" st)
  end.

(** [sendTaskReminderEmail] *)
Definition sendTaskReminderEmail (task : Task.t) (user : User)
    (now random oid : Z) (fault : Fault) (st : State)
  : Result unit * State :=
  let template := taskReminder task user in
  let emailData :=
    mkData (user_email user) (fst template) (snd template)
           Email.reminder (user_id user) (user_id user)
           (Some (Task.id task)) Email.normal None None in
  let st := addToQueue emailData now random st in
  let email := newEmail oid now emailData in
  match Email.save fault now email (emails st) with
  | (Ok _, _, db) =>
      (Ok tt, log INFO "Email task_reminder_queued" (set_emails db st))
  | (Throw _, _, _) =>
      (Ok tt, log ERROR "Error saving task reminder email to database" st)
  end.

(** [sendTaskCompletionEmail] *)
Definition sendTaskCompletionEmail (task : Task.t) (user : User)
    (now random oid : Z) (fault : Fault) (st : State)
  : Result unit * State :=
  let template := taskCompleted task user now in
  let emailData :=
    mkData (user_email user) (fst template) (snd template)
           Email.notification (user_id user) (user_id user)
           (Some (Task.id task)) Email.low None None in
  let st := addToQueue emailData now random st in
  let email := newEmail oid now emailData in
  match Email.save fault now email (emails st) with
  | (Ok _, _, db) =>
      (Ok tt, log INFO "Email task_completion_queued" (set_emails db st))
  | (Throw _, _, _) =>
      (Ok tt,
       log ERROR "Error saving task completion email to database" st)
  end.

End Producers.

End EmailService.

(** ** controllers/emailController.js: the batch reconciler *)

Module EmailController.

Import EmailService.

(** What happens around one e-mail of the batch: the time and the fault of
    the write that marks it as processing, the outcome of
    [Math.random() < 0.9], the time and the fault of the write of that
    outcome, and the time and the fault of the write made by the [catch]
    block. *)
Record Sim := mkSim {
  processing_at : Z;
  processing_fault : Fault;
  delivered : bool;
  outcome_at : Z;
  outcome_fault : Fault;
  fallback_at : Z;
  fallback_fault : Fault
}.

(** An element of [results]. *)
Record Entry := mkEntry {
  emailId : Z;
  status : Email.Status;
  recipient : string;
  error : option string
}.

Inductive Response :=
| NoPending                     (* 'No pending emails to process' *)
| Completed (processedCount : nat) (results : list Entry) (batchSize : nat).

(** The [catch (error)] block of the loop body. *)
Definition on_error (o : Sim) (message : string) (email : Email.t)
    (st : State) : Entry * State :=
  let '(r, email, db) :=
    Email.markAsFailed (fallback_fault o) (fallback_at o) message email
                       (emails st) in
  let st := set_emails db st in
  let st :=
    match r with
    | Ok _ => st
    | Throw _ => log ERROR "Error marking email as failed:" st
    end in
  (mkEntry (Email.id email) Email.failed (Email.to email) (Some message),
   st).

(** The body of [for (const email of pendingEmails)]; the boolean tells
    whether [processedCount++] was reached. *)
Definition process_email (o : Sim) (email : Email.t) (st : State)
  : Entry * bool * State :=
  match Email.markAsProcessing (processing_fault o) (processing_at o)
                               email (emails st) with
  | (Throw error, email, _) =>
      let (entry, st) := on_error o (message_of error) email st in
      (entry, false, st)
  | (Ok _, email, db) =>
      let st := set_emails db st in
      if delivered o then
        match Email.markAsSent (outcome_fault o) (outcome_at o)
                               email (emails st) with
        | (Throw error, email, _) =>
            let (entry, st) := on_error o (message_of error) email st in
            (entry, false, st)
        | (Ok _, email, db) =>
            (mkEntry (Email.id email) Email.sent (Email.to email) None,
             true, set_emails db st)
        end
      else
        match Email.markAsFailed (outcome_fault o) (outcome_at o)
                "Simulated processing failure" email (emails st) with
        | (Throw error, email, _) =>
            let (entry, st) := on_error o (message_of error) email st in
            (entry, false, st)
        | (Ok _, email, db) =>
            (mkEntry (Email.id email) Email.failed (Email.to email)
                     (Some "Simulated processing failure"),
             true, set_emails db st)
        end
  end.

Fixpoint process_all (oracle : nat -> Sim) (k : nat)
    (pendingEmails : list Email.t) (st : State)
  : nat * list Entry * State :=
  match pendingEmails with
  | [] => (O, [], st)
  | email :: rest =>
      let '(entry, counted, st) := process_email (oracle k) email st in
      let '(processedCount, results, st) :=
        process_all oracle (S k) rest st in
      ((if counted then S processedCount else processedCount),
       entry :: results, st)
  end.

(** [simulateEmailProcessing] for a request body that passed validation
    (an integer [batchSize] from 1 to 50, 10 when absent); [now] is the
    time of the query and [query] its rejection, if any, which the handler
    passes on. *)
Definition simulateEmailProcessing (batchSize : nat) (now : Z)
    (query : Fault) (oracle : nat -> Sim) (st : State)
  : Result Response * State :=
  match query with
  | Some msg => (Throw (StoreError msg), st)
  | None =>
      let pendingEmails :=
        Email.getPendingEmails now batchSize (emails st) in
      match pendingEmails with
      | [] => (Ok NoPending, st)
      | _ =>
          let '(processedCount, results, st) :=
            process_all oracle O pendingEmails st in
          (Ok (Completed processedCount results batchSize), st)
      end
  end.

End EmailController.

(** ** The lifecycle of one ledger record *)

Module Lifecycle.

(** The document a method leaves in memory. *)
Definition doc (r : Result unit * Email.t * Email.Collection) : Email.t :=
  snd (fst r).

(** Documents that the four methods produce from [e0], each call with any
    time, any fault and any store content. *)
Inductive reachable (e0 : Email.t) : Email.t -> Prop :=
| reach_created : reachable e0 e0
| reach_processing fault now db e :
    reachable e0 e ->
    reachable e0 (doc (Email.markAsProcessing fault now e db))
| reach_sent fault now db e :
    reachable e0 e ->
    reachable e0 (doc (Email.markAsSent fault now e db))
| reach_failed fault now message db e :
    reachable e0 e ->
    reachable e0 (doc (Email.markAsFailed fault now message e db))
| reach_retry fault now db e :
    reachable e0 e ->
    reachable e0 (doc (Email.retry fault now e db)).

(** The same, with [markAsProcessing] called on pending documents only:
    its one caller, the batch reconciler, calls it on the result of
    [getPendingEmails]. *)
Inductive reconciled (e0 : Email.t) : Email.t -> Prop :=
| rec_created : reconciled e0 e0
| rec_processing fault now db e :
    reconciled e0 e ->
    Email.status e = Email.pending ->
    reconciled e0 (doc (Email.markAsProcessing fault now e db))
| rec_sent fault now db e :
    reconciled e0 e ->
    reconciled e0 (doc (Email.markAsSent fault now e db))
| rec_failed fault now message db e :
    reconciled e0 e ->
    reconciled e0 (doc (Email.markAsFailed fault now message e db))
| rec_retry fault now db e :
    reconciled e0 e ->
    reconciled e0 (doc (Email.retry fault now e db)).

(** What the lifecycle keeps true of a document. *)
Definition within_budget (e : Email.t) : Prop :=
  Email.attempts e <= Email.maxAttempts e
  /\ (Email.status e = Email.pending ->
      Email.attempts e < Email.maxAttempts e).

(** What the four methods keep true of the other fields: a sent record
    has its [sentAt], a failed one its [errorMessage], and a pending one
    carries no trace of a delivery. *)
Definition well_formed (e : Email.t) : Prop :=
  (Email.status e = Email.sent -> Email.sentAt e <> None)
  /\ (Email.status e = Email.failed -> Email.errorMessage e <> None)
  /\ (Email.status e = Email.processing -> Email.processedAt e <> None)
  /\ (Email.status e = Email.pending ->
      Email.processedAt e = None
      /\ Email.sentAt e = None
      /\ Email.errorMessage e = None).

End Lifecycle.

(** ** The dispatcher as a whole *)

Module Dispatcher.

Import EmailService.

(** What can happen to the dispatcher: a call of one of its operations,
    with the inputs of the call, or a resumption of the drain loop. *)
Inductive Event :=
| AddToQueue (emailData : EmailData) (now random : Z)
| ProcessQueue
| Settle (ok : bool) (now : Z)
| DelayElapsed
| ClearQueue
| SendWelcomeEmail (toLocaleDateString : Z -> string) (user : User)
    (now random oid : Z) (fault : Fault)
| SendTaskAssignmentEmail
    (taskAssignment : Task.t -> User -> User -> string * string)
    (task : Task.t) (assignee assignedBy : User) (now random oid : Z)
    (fault : Fault)
| SendTaskUpdateEmail
    (taskUpdate : Task.t -> User -> string -> string -> Z
                  -> string * string)
    (task : Task.t) (user : User) (oldStatus newStatus : string)
    (now random oid : Z) (fault : Fault)
| SendTaskReminderEmail (taskReminder : Task.t -> User -> string * string)
    (task : Task.t) (user : User) (now random oid : Z) (fault : Fault)
| SendTaskCompletionEmail
    (taskCompleted : Task.t -> User -> Z -> string * string)
    (task : Task.t) (user : User) (now random oid : Z) (fault : Fault)
| RetryFailedEmail (emailId now random : Z) (lookup fault : Fault)
| GetFailedEmails (limit : nat) (fault : Fault)
| SimulateEmailProcessing (batchSize : nat) (now : Z) (query : Fault)
    (oracle : nat -> EmailController.Sim)
| CleanOldEmails (daysBefore : Z -> Z -> Z) (now : Z) (daysOld : option Z).

Definition step (ev : Event) (st : State) : State :=
  match ev with
  | AddToQueue emailData now random => addToQueue emailData now random st
  | ProcessQueue => processQueue st
  | Settle ok now => settle ok now st
  | DelayElapsed => delay_elapsed st
  | ClearQueue => snd (clearQueue st)
  | SendWelcomeEmail f user now random oid fault =>
      snd (sendWelcomeEmail f user now random oid fault st)
  | SendTaskAssignmentEmail f task assignee assignedBy now random oid
      fault =>
      snd (sendTaskAssignmentEmail f task assignee assignedBy now random
             oid fault st)
  | SendTaskUpdateEmail f task user oldStatus newStatus now random oid
      fault =>
      snd (sendTaskUpdateEmail f task user oldStatus newStatus now random
             oid fault st)
  | SendTaskReminderEmail f task user now random oid fault =>
      snd (sendTaskReminderEmail f task user now random oid fault st)
  | SendTaskCompletionEmail f task user now random oid fault =>
      snd (sendTaskCompletionEmail f task user now random oid fault st)
  | RetryFailedEmail emailId now random lookup fault =>
      snd (retryFailedEmail emailId now random lookup fault st)
  | GetFailedEmails limit fault => snd (getFailedEmails limit fault st)
  | SimulateEmailProcessing batchSize now query oracle =>
      snd (EmailController.simulateEmailProcessing batchSize now query
             oracle st)
  | CleanOldEmails daysBefore now daysOld =>
      set_emails (snd (Email.cleanOldEmails daysBefore now daysOld
                         (emails st))) st
  end.

(** The object literal a producer event builds, with the time, the random
    number, the fresh id and the fault of its call. *)
Definition produced (ev : Event)
  : option (EmailData * Z * Z * Z * Fault) :=
  match ev with
  | SendWelcomeEmail f user now random oid fault =>
      let template := emailTemplates_welcome f user in
      Some (mkData (user_email user) (fst template) (snd template)
              Email.welcome (user_id user) (user_id user) None
              Email.normal None None,
            now, random, oid, fault)
  | SendTaskAssignmentEmail f task assignee assignedBy now random oid
      fault =>
      let template := f task assignee assignedBy in
      Some (mkData (user_email assignee) (fst template) (snd template)
              Email.task_assignment (user_id assignee)
              (user_id assignedBy) (Some (Task.id task))
              (if Task.priority_eqb (Task.priority task) Task.urgent
               then Email.high else Email.normal)
              None None,
            now, random, oid, fault)
  | SendTaskUpdateEmail f task user oldStatus newStatus now random oid
      fault =>
      let template := f task user oldStatus newStatus now in
      Some (mkData (user_email user) (fst template) (snd template)
              Email.task_update (user_id user) (user_id user)
              (Some (Task.id task)) Email.low None None,
            now, random, oid, fault)
  | SendTaskReminderEmail f task user now random oid fault =>
      let template := f task user in
      Some (mkData (user_email user) (fst template) (snd template)
              Email.reminder (user_id user) (user_id user)
              (Some (Task.id task)) Email.normal None None,
            now, random, oid, fault)
  | SendTaskCompletionEmail f task user now random oid fault =>
      let template := f task user now in
      Some (mkData (user_email user) (fst template) (snd template)
              Email.notification (user_id user) (user_id user)
              (Some (Task.id task)) Email.low None None,
            now, random, oid, fault)
  | _ => None
  end.

(** The states of a process that started on the ledger [ledger] with the
    queue empty and no loop running, the events taking place one after
    another. *)
Inductive reachable (ledger : Email.Collection) : State -> Prop :=
| reach_start : reachable ledger (mkState [] false Idle ledger [])
| reach_step ev st :
    reachable ledger st -> reachable ledger (step ev st).

(** The flag is up exactly while a loop is live, and no job waits without
    one. *)
Definition coherent (st : State) : Prop :=
  (isProcessing st = true <-> worker st <> Idle)
  /\ (worker st = Idle -> emailQueue st = []).

(** The jobs the dispatcher holds: the one in flight, then the queue. *)
Definition jobs (st : State) : list Job :=
  match worker st with
  | AwaitingDelivery j => j :: emailQueue st
  | _ => emailQueue st
  end.

Definition budgeted (j : Job) : Prop :=
  maxAttempts j = 3 /\ 0 <= attempts j <= 3.

Definition all_budgeted (st : State) : Prop :=
  forall j, In j (jobs st) -> budgeted j.

End Dispatcher.

(** ** Concrete data used by the examples below *)

Module Samples.

Import EmailService.

Definition ledger_record (i : Z) (s : Email.Status) (p : Email.Priority)
    (scheduled attempts_ updated : Z) : Email.t :=
  Email.mk i "alice@x.com" "Welcome" "Hello" Email.welcome s p 7 7 None
           scheduled None None attempts_ 3
           (match s with Email.failed => Some "Simulated processing failure"
                       | _ => None end)
           scheduled updated.

Definition idle : State := mkState [] false Idle [] [].

Definition alice : User := mkUser 7 "Alice" "alice@x.com" "3" 1000.

Definition iso_date (d : Z) : string := "1/1/2026".

Definition welcome_data : EmailData :=
  mkData "alice@x.com" "Welcome" "Hello" Email.welcome 7 7 None
         Email.normal None None.

Definition always_fails (k : nat) : bool * Z := (false, 2000 + Z.of_nat k).

Definition always_succeeds (k : nat) : bool * Z :=
  (true, 2000 + Z.of_nat k).

(** The first delivery fails, the others succeed. *)
Definition fails_once (k : nat) : bool * Z :=
  (negb (Nat.eqb k 0), 2000 + Z.of_nat k).

(** Every write succeeds and every delivery fails. *)
Definition failing_batch (k : nat) : EmailController.Sim :=
  EmailController.mkSim 3000 None false 3001 None 3002 None.

(** Alice registers while the dispatcher is idle and the store answers. *)
Definition welcomed : State :=
  snd (sendWelcomeEmail iso_date alice 1000 5 1 None idle).

(** Her welcome job after three failed deliveries, and the dispatcher
    simulating its fourth. *)
Definition last_job : Job :=
  mkJob "alice@x.com" "Welcome to Task Workflow, Alice!"
        (snd (emailTemplates_welcome iso_date alice)) Email.welcome 7 7
        None Email.normal (1000, 5) 2002 3 3.

Definition last_attempt : State :=
  Eval vm_compute in snd (run 3 always_fails 0 welcomed).

(** A low-priority job queued before an urgent one, and nothing running:
    the state [processQueue] finds when it is called from outside. *)
Definition low_job : Job :=
  mkJob "bob@x.com" "Update" "Hello" Email.task_update 8 8 (Some 40)
        Email.low (900, 1) 900 0 3.

Definition urgent_job : Job :=
  mkJob "alice@x.com" "Assigned" "Hello" Email.task_assignment 7 8
        (Some 41) Email.urgent (901, 2) 901 0 3.

Definition backlog : State :=
  mkState [low_job; urgent_job] false Idle [] [].


(** A failed record with one attempt left. *)
Definition retryable : Email.Collection :=
  [ ledger_record 1 Email.failed Email.normal 10 2 101 ].

(** Five records that failed with their attempts used up. *)
Definition exhausted : Email.Collection :=
  [ ledger_record 1 Email.failed Email.normal 10 3 101;
    ledger_record 2 Email.failed Email.normal 20 3 102;
    ledger_record 3 Email.failed Email.normal 30 3 103;
    ledger_record 4 Email.failed Email.normal 40 3 104;
    ledger_record 5 Email.failed Email.normal 50 3 105 ].

Definition high_and_low : Email.Collection :=
  [ ledger_record 1 Email.pending Email.high 10 0 10;
    ledger_record 2 Email.pending Email.low 20 0 20 ].

Definition urgent_low_normal : Email.Collection :=
  [ ledger_record 1 Email.pending Email.urgent 10 0 10;
    ledger_record 2 Email.pending Email.low 20 0 20;
    ledger_record 3 Email.pending Email.normal 30 0 30 ].

Definition scan : Task.Attachment :=
  Task.mkAttachment "65f000000000000000000001" "scan-1.pdf" "scan.pdf"
    "uploads/scan-1.pdf" "application/pdf" 2048 500.

Definition photo : Task.Attachment :=
  Task.mkAttachment "65f000000000000000000002" "photo-2.png" "photo.png"
    "uploads/photo-2.png" "image/png" 4096 600.

Definition report_data : Task.AttachmentData :=
  Task.mkAttachmentData "report-3.pdf" "report.pdf" "uploads/report-3.pdf"
    "application/pdf" 1024 None.

(** A task of user 8, assigned to user 7, with two attachments. *)
Definition audit_task : Task.t :=
  Task.mk 40 "Audit" "Quarterly audit" Task.in_progress Task.urgent
    (Some 7) (Some 8) [scan; photo] (Some 9000) None None None ["q3"] []
    false None None 100 400.

(** A deleted task of user 8, assigned to user 9. *)
Definition archived_task : Task.t :=
  Task.mk 41 "Archive" "Old files" Task.completed Task.low (Some 9)
    (Some 8) [] None (Some 300) None None [] [] true (Some 350) (Some 8)
    100 350.

Definition tasks : Task.Collection := [audit_task; archived_task].



End Samples.

(** * Properties *)

(** ** Sorting and limiting *)

Lemma in_firstn {A} (n : nat) (l : list A) (a : A) :
  In a (firstn n l) -> In a l.
Proof.
  intros H. rewrite <- (firstn_skipn n l). apply in_or_app. now left.
Qed.

Lemma in_skipn {A} (n : nat) (l : list A) (a : A) :
  In a (skipn n l) -> In a l.
Proof.
  intros H. rewrite <- (firstn_skipn n l). apply in_or_app. now right.
Qed.

Section Sorting.

Variable le : Email.t -> Email.t -> bool.
Hypothesis le_total : forall a b, le a b = true \/ le b a = true.
Hypothesis le_trans :
  forall a b c, le a b = true -> le b c = true -> le a c = true.

Lemma insert_by_perm x l : Permutation (x :: l) (Email.insert_by le x l).
Proof.
  induction l as [|y l IH]; simpl; [reflexivity|].
  destruct (le x y); [reflexivity|].
  rewrite perm_swap. now apply perm_skip.
Qed.

Lemma sort_by_perm l : Permutation l (Email.sort_by le l).
Proof.
  induction l as [|x l IH]; simpl; [constructor|].
  rewrite <- insert_by_perm. now apply perm_skip.
Qed.

Lemma insert_by_sorted x l :
  StronglySorted (fun a b => le a b = true) l ->
  StronglySorted (fun a b => le a b = true) (Email.insert_by le x l).
Proof.
  induction 1 as [|y l Hs IH Hall]; simpl.
  - repeat constructor.
  - destruct (le x y) eqn:Hxy.
    + constructor; [now constructor|].
      constructor; [exact Hxy|].
      eapply Forall_impl; [|exact Hall].
      intros z Hz. now apply le_trans with y.
    + constructor; [exact IH|].
      apply (Permutation_Forall (insert_by_perm x l)).
      constructor; [|exact Hall].
      destruct (le_total x y) as [H|H]; [congruence|exact H].
Qed.

Lemma sort_by_sorted l :
  StronglySorted (fun a b => le a b = true) (Email.sort_by le l).
Proof.
  induction l as [|x l IH]; simpl; [constructor|].
  now apply insert_by_sorted.
Qed.

(** The first [n] elements of a sorted list come before all the others. *)
Lemma sorted_firstn_skipn n l :
  StronglySorted (fun a b => le a b = true) l ->
  forall a b, In a (firstn n l) -> In b (skipn n l) -> le a b = true.
Proof.
  intros Hs; revert n.
  induction Hs as [|x l Hs IH Hall]; intros n a b Ha Hb.
  - destruct n; simpl in Ha; contradiction.
  - destruct n as [|n]; simpl in Ha, Hb; [contradiction|].
    destruct Ha as [<-|Ha].
    + rewrite Forall_forall in Hall.
      apply Hall. eapply in_skipn; eauto.
    + eauto.
Qed.

Lemma sorted_firstn n l :
  StronglySorted (fun a b => le a b = true) l ->
  StronglySorted (fun a b => le a b = true) (firstn n l).
Proof.
  intros Hs; revert n.
  induction Hs as [|x l Hs IH Hall]; intros [|n]; simpl; try constructor.
  - apply IH.
  - rewrite Forall_forall in *. intros y Hy.
    apply Hall. eapply in_firstn; eauto.
Qed.

End Sorting.

Lemma StronglySorted_impl {A} (R S : A -> A -> Prop) (l : list A) :
  (forall a b, R a b -> S a b) -> StronglySorted R l -> StronglySorted S l.
Proof.
  intros HRS; induction 1 as [|x l Hs IH Hall]; constructor; auto.
  eapply Forall_impl; [|exact Hall]. auto.
Qed.

Lemma failed_le_total a b :
  Email.failed_le a b = true \/ Email.failed_le b a = true.
Proof. unfold Email.failed_le. lia. Qed.

Lemma failed_le_trans a b c :
  Email.failed_le a b = true -> Email.failed_le b c = true ->
  Email.failed_le a c = true.
Proof. unfold Email.failed_le. lia. Qed.

Lemma status_eqb_eq a b : Email.status_eqb a b = true <-> a = b.
Proof. destruct a, b; simpl; split; congruence. Qed.

Lemma canRetry_true e :
  Email.canRetry e = true <->
  Email.status e = Email.failed /\ Email.attempts e < Email.maxAttempts e.
Proof.
  unfold Email.canRetry.
  rewrite andb_true_iff, status_eqb_eq, Z.ltb_lt. reflexivity.
Qed.

(** ** The batch reconciler's query (C3) *)

(** The scenario of the specification: of three pending records with the
    priorities urgent, low and normal, a batch of two takes the urgent one
    first. *)
Example getPendingEmails_urgent_first :
  map Email.id (Email.getPendingEmails 100 2 Samples.urgent_low_normal)
  = [1; 3].
Proof. reflexivity. Qed.

(** C3, at the failing input: with a pending record of priority high and a
    pending record of priority low, both due, a batch of one takes the low
    one, because the query sorts the stored strings and "low" comes after
    "high"; the reconciler resolves the low record and leaves the high one
    pending. *)
Theorem getPendingEmails_low_before_high :
  map Email.id (Email.getPendingEmails 100 1 Samples.high_and_low) = [2]
  /\ (let r := EmailController.simulateEmailProcessing 1 100 None
                 Samples.failing_batch
                 (EmailService.set_emails Samples.high_and_low Samples.idle) in
      fst r = Ok (EmailController.Completed 1
                    [EmailController.mkEntry 2 Email.failed "alice@x.com"
                       (Some "Simulated processing failure")] 1)
      /\ map (fun e => (Email.id e, Email.priority e, Email.status e))
             (EmailService.emails (snd r))
         = [(1, Email.high, Email.pending); (2, Email.low, Email.failed)]).
Proof. split; [|split]; reflexivity. Qed.

(** ** ListFailed (C6) *)

(** C6 as stated fails: five records that failed with their attempts used
    up, and [ListFailed(5)] returns none of them. *)
Lemma ListFailed_omits_exhausted :
  Forall (fun e => Email.status e = Email.failed
                   /\ Email.attempts e >= Email.maxAttempts e)
         Samples.exhausted
  /\ fst (EmailService.getFailedEmails 5 None
            (EmailService.set_emails Samples.exhausted Samples.idle))
     = Ok [].
Proof.
  split; [|reflexivity].
  unfold Samples.exhausted.
  repeat (constructor; [simpl; split; [reflexivity|lia]|]).
  constructor.
Qed.

(** C6, amended: [ListFailed(limit)] returns the failed records that still
    have attempts left, and only those: the [limit] least recently updated
    of them, oldest first; a record whose attempts are used up is never
    returned. *)
Theorem getFailedEmails_retryable_oldest_first
    (limit : nat) (st : EmailService.State) :
  (1 <= limit)%nat ->
  exists res rest,
    fst (EmailService.getFailedEmails limit None st) = Ok res
    /\ Permutation (res ++ rest)
         (filter Email.canRetry (EmailService.emails st))
    /\ List.length res
       = Nat.min limit
           (List.length (filter Email.canRetry (EmailService.emails st)))
    /\ StronglySorted
         (fun a b => Email.updatedAt a <= Email.updatedAt b) res
    /\ (forall a b, In a res -> In b rest ->
                    Email.updatedAt a <= Email.updatedAt b)
    /\ (forall e, In e res ->
                  In e (EmailService.emails st)
                  /\ Email.status e = Email.failed
                  /\ Email.attempts e < Email.maxAttempts e)
    /\ (forall e, Email.attempts e >= Email.maxAttempts e -> ~ In e res).
Proof.
  intros Hlimit.
  set (matching := filter Email.canRetry (EmailService.emails st)).
  set (sorted := Email.sort_by Email.failed_le matching).
  assert (Hperm : Permutation matching sorted)
    by apply sort_by_perm.
  assert (Hsorted : StronglySorted
                      (fun a b => Email.failed_le a b = true) sorted)
    by (apply sort_by_sorted;
        [apply failed_le_total | apply failed_le_trans]).
  assert (Hres : Email.getFailedEmails limit (EmailService.emails st)
                 = firstn limit sorted).
  { unfold Email.getFailedEmails, Email.limit.
    destruct limit; [lia|reflexivity]. }
  assert (Hin : forall e, In e (firstn limit sorted) ->
                  In e (EmailService.emails st)
                  /\ Email.status e = Email.failed
                  /\ Email.attempts e < Email.maxAttempts e).
  { intros e He. apply in_firstn in He.
    apply (Permutation_in _ (Permutation_sym Hperm)) in He.
    apply filter_In in He. destruct He as [He Hc].
    apply canRetry_true in Hc. tauto. }
  exists (firstn limit sorted), (skipn limit sorted).
  repeat split.
  - simpl. now rewrite Hres.
  - rewrite firstn_skipn. now symmetry.
  - rewrite length_firstn. now rewrite (Permutation_length Hperm).
  - eapply StronglySorted_impl; [|apply sorted_firstn; exact Hsorted].
    intros a b. unfold Email.failed_le. lia.
  - intros a b Ha Hb.
    pose proof (sorted_firstn_skipn _ _ _ Hsorted a b Ha Hb) as H.
    unfold Email.failed_le in H. lia.
  - now apply Hin.
  - now apply Hin.
  - now apply Hin.
  - intros e Hge He. apply Hin in He. lia.
Qed.

(** The amended C6 at a ledger with one retryable and one exhausted
    record. *)
Lemma getFailedEmails_retryable_oldest_first_witness :
  exists res rest,
    fst (EmailService.getFailedEmails 5 None
           (EmailService.set_emails
              [Samples.ledger_record 1 Email.failed Email.normal 10 1 101;
               Samples.ledger_record 2 Email.failed Email.normal 20 3 102]
              Samples.idle)) = Ok res
    /\ Permutation (res ++ rest)
         [Samples.ledger_record 1 Email.failed Email.normal 10 1 101]
    /\ List.length res = 1%nat
    /\ StronglySorted
         (fun a b => Email.updatedAt a <= Email.updatedAt b) res
    /\ (forall a b, In a res -> In b rest ->
                    Email.updatedAt a <= Email.updatedAt b)
    /\ (forall e, In e res ->
                  In e [Samples.ledger_record 1 Email.failed Email.normal
                          10 1 101;
                        Samples.ledger_record 2 Email.failed Email.normal
                          20 3 102]
                  /\ Email.status e = Email.failed
                  /\ Email.attempts e < Email.maxAttempts e)
    /\ (forall e, Email.attempts e >= Email.maxAttempts e -> ~ In e res).
Proof.
  apply (getFailedEmails_retryable_oldest_first 5
           (EmailService.set_emails
              [Samples.ledger_record 1 Email.failed Email.normal 10 1 101;
               Samples.ledger_record 2 Email.failed Email.normal 20 3 102]
              Samples.idle)).
  lia.
Defined.

(** ** The lifecycle of a record (C5) *)

Lemma save_keeps fault now d db :
  let d' := Lifecycle.doc (Email.save fault now d db) in
  Email.status d' = Email.status d
  /\ Email.attempts d' = Email.attempts d
  /\ Email.maxAttempts d' = Email.maxAttempts d.
Proof.
  unfold Lifecycle.doc, Email.save, Email.pre_save.
  destruct fault, (Email.findById (Email.id d) db),
    (Email.isModified_status d db), d as [? ? ? ? ? [] ? ? ? ? ? ? ? ? ? ? ? ?];
    simpl; auto.
Qed.

Ltac save_fields :=
  match goal with
  | |- context [Lifecycle.doc (Email.save ?f ?n ?d ?db)] =>
      let H := fresh "Hsave" in
      pose proof (save_keeps f n d db) as H; cbv zeta in H;
      let Hs := fresh "Hs" in
      let Ha := fresh "Ha" in
      let Hm := fresh "Hm" in
      destruct H as (Hs & Ha & Hm);
      rewrite ?Hs, ?Ha, ?Hm; simpl
  end.

Lemma reconciled_within_budget e0 e :
  Lifecycle.within_budget e0 ->
  Lifecycle.reconciled e0 e ->
  Lifecycle.within_budget e.
Proof.
  intros H0; induction 1 as
    [ | fault now db e Hr IH Hp | fault now db e Hr IH
      | fault now message db e Hr IH | fault now db e Hr IH ];
    [exact H0 | | | | ]; destruct IH as [Hle Hlt]; unfold Lifecycle.within_budget.
  - specialize (Hlt Hp). unfold Email.markAsProcessing.
    save_fields. split; [lia|discriminate].
  - unfold Email.markAsSent. save_fields. split; [exact Hle|discriminate].
  - unfold Email.markAsFailed. save_fields. split; [exact Hle|discriminate].
  - unfold Email.retry.
    destruct (Email.attempts e <? Email.maxAttempts e) eqn:Hlt'.
    + save_fields. apply Z.ltb_lt in Hlt'. split; [lia|intros _; exact Hlt'].
    + unfold Lifecycle.doc; simpl. split; assumption.
Qed.

(** C5 as stated fails: [markAsProcessing] adds one to [attempts] whatever
    the record holds, so four calls on a new record leave 4 attempts of 3. *)
Lemma four_markAsProcessing_exceed_maxAttempts :
  let e0 := EmailService.newEmail 1 100 Samples.welcome_data in
  let mark e := Lifecycle.doc (Email.markAsProcessing None 200 e [e0]) in
  Email.attempts e0 = 0
  /\ Lifecycle.reachable e0 (mark (mark (mark (mark e0))))
  /\ ~ Email.attempts (mark (mark (mark (mark e0))))
       <= Email.maxAttempts (mark (mark (mark (mark e0)))).
Proof.
  intros e0 mark. split; [reflexivity|]. split.
  - unfold mark. do 4 apply Lifecycle.reach_processing.
    apply Lifecycle.reach_created.
  - vm_compute. intros H. apply H. reflexivity.
Qed.

(** C5, amended: for every record created at Enqueue (no attempts, the
    default budget) and every sequence of [markAsProcessing], [markAsSent],
    [markAsFailed] and [retry] on it in which [markAsProcessing] is called
    only while the record is pending, [attempts <= maxAttempts] holds in
    every state. *)
Theorem attempts_within_maxAttempts
    (oid now : Z) (emailData : EmailService.EmailData) (e : Email.t) :
  EmailService.data_attempts emailData = None ->
  EmailService.data_maxAttempts emailData = None ->
  Lifecycle.reconciled (EmailService.newEmail oid now emailData) e ->
  Email.attempts e <= Email.maxAttempts e.
Proof.
  intros Ha Hm Hr.
  apply (reconciled_within_budget _ _) in Hr; [apply Hr|].
  unfold Lifecycle.within_budget, EmailService.newEmail; simpl.
  rewrite Ha, Hm. lia.
Qed.

(** The amended C5 on a record that was processed, failed and retried. *)
Lemma attempts_within_maxAttempts_witness :
  let e0 := EmailService.newEmail 1 100 Samples.welcome_data in
  let e1 := Lifecycle.doc (Email.markAsProcessing None 200 e0 [e0]) in
  let e2 := Lifecycle.doc (Email.markAsFailed None 201 "boom" e1 [e1]) in
  let e3 := Lifecycle.doc (Email.retry None 202 e2 [e2]) in
  Email.attempts e3 <= Email.maxAttempts e3.
Proof.
  intros e0 e1 e2 e3.
  apply (attempts_within_maxAttempts 1 100 Samples.welcome_data e3).
  - reflexivity.
  - reflexivity.
  - apply Lifecycle.rec_retry, Lifecycle.rec_failed,
      Lifecycle.rec_processing; [apply Lifecycle.rec_created|reflexivity].
Defined.

(** ** The retry action (C4) *)

Lemma retry_eligible fault now e db :
  Email.attempts e < Email.maxAttempts e ->
  fst (fst (Email.retry fault now e db)) = Ok tt
  \/ exists msg,
       fst (fst (Email.retry fault now e db)) = Throw (StoreError msg).
Proof.
  intros Hlt. unfold Email.retry. apply Z.ltb_lt in Hlt. rewrite Hlt.
  unfold Email.save.
  destruct fault as [msg|]; simpl; [right; now exists msg|left].
  now destruct (Email.findById _ db).
Qed.

(** C4: on a record of the ledger, Retry fails with 'Email cannot be
    retried' exactly when the record is not failed or its attempts are used
    up; when it does, the ledger, the queue, the flag and the worker are as
    before. *)
Theorem retryFailedEmail_not_eligible
    (emailId now random : Z) (fault : Fault) (st : EmailService.State)
    (email : Email.t) :
  Email.findById emailId (EmailService.emails st) = Some email ->
  let r :=
    EmailService.retryFailedEmail emailId now random None fault st in
  (fst r = Throw (Error "Email cannot be retried") <->
   Email.status email <> Email.failed
   \/ Email.attempts email >= Email.maxAttempts email)
  /\ (fst r = Throw (Error "Email cannot be retried") ->
      EmailService.emails (snd r) = EmailService.emails st
      /\ Email.findById emailId (EmailService.emails (snd r)) = Some email
      /\ EmailService.emailQueue (snd r) = EmailService.emailQueue st
      /\ EmailService.isProcessing (snd r) = EmailService.isProcessing st
      /\ EmailService.worker (snd r) = EmailService.worker st).
Proof.
  intros Hfind r; subst r. unfold EmailService.retryFailedEmail.
  rewrite Hfind.
  destruct (Email.canRetry email) eqn:Hc; simpl.
  - apply canRetry_true in Hc. destruct Hc as [Hs Hlt].
    pose proof (retry_eligible fault now email (EmailService.emails st) Hlt)
      as Hres.
    destruct (Email.retry fault now email (EmailService.emails st))
      as [[res email'] db'].
    simpl in Hres.
    split; [split|].
    + destruct Hres as [->|[msg ->]]; simpl; discriminate.
    + intros [H|H]; [congruence|lia].
    + destruct Hres as [->|[msg ->]]; simpl; discriminate.
  - split; [split|].
    + intros _. apply andb_false_iff in Hc. destruct Hc as [Hc|Hc].
      * left. intros Hs. rewrite Hs in Hc. discriminate.
      * right. apply Z.ltb_ge in Hc. lia.
    + reflexivity.
    + intros _. destruct st; simpl in *. repeat split; auto.
Qed.

(** The amended C4 on a failed record whose attempts are used up. *)
Lemma retryFailedEmail_not_eligible_witness :
  let st := EmailService.set_emails Samples.exhausted Samples.idle in
  let r := EmailService.retryFailedEmail 1 500 9 None None st in
  (fst r = Throw (Error "Email cannot be retried") <->
   Email.status (Samples.ledger_record 1 Email.failed Email.normal 10 3 101)
   <> Email.failed
   \/ Email.attempts
        (Samples.ledger_record 1 Email.failed Email.normal 10 3 101)
      >= Email.maxAttempts
           (Samples.ledger_record 1 Email.failed Email.normal 10 3 101))
  /\ (fst r = Throw (Error "Email cannot be retried") ->
      EmailService.emails (snd r) = EmailService.emails st
      /\ Email.findById 1 (EmailService.emails (snd r))
         = Some (Samples.ledger_record 1 Email.failed Email.normal 10 3 101)
      /\ EmailService.emailQueue (snd r) = EmailService.emailQueue st
      /\ EmailService.isProcessing (snd r) = EmailService.isProcessing st
      /\ EmailService.worker (snd r) = EmailService.worker st).
Proof.
  intros st.
  apply (retryFailedEmail_not_eligible 1 500 9 None st
           (Samples.ledger_record 1 Email.failed Email.normal 10 3 101)).
  reflexivity.
Defined.

(** ** The drain loop: what each resumption does *)

Section DrainSteps.

Import EmailService.

Lemma loop_nil st :
  emailQueue st = [] ->
  loop st = log INFO "Email queue processing completed"
              (set_worker Idle (set_isProcessing false st)).
Proof. unfold loop. now intros ->. Qed.

Lemma loop_cons st j rest :
  emailQueue st = j :: rest ->
  loop st = log INFO "Processing email job"
              (set_worker (AwaitingDelivery j) (set_emailQueue rest st)).
Proof. unfold loop. now intros ->. Qed.

Lemma loop_shift st :
  emailQueue (loop st) = tl (emailQueue st)
  /\ worker (loop st) = match emailQueue st with
                        | [] => Idle
                        | j :: _ => AwaitingDelivery j
                        end.
Proof.
  destruct st as [q flag w db lg]. unfold loop; simpl.
  destruct q; split; reflexivity.
Qed.

Lemma loop_emails st : emails (loop st) = emails st.
Proof. unfold loop. now destruct (emailQueue st). Qed.

Lemma loop_quiescent st : quiescent (loop st).
Proof.
  destruct st as [q flag w db lg]. unfold quiescent, loop; simpl.
  destruct q; simpl; [auto|discriminate].
Qed.

Lemma processQueue_emails st : emails (processQueue st) = emails st.
Proof.
  unfold processQueue.
  destruct (isProcessing st || _); [reflexivity|].
  now rewrite loop_emails.
Qed.

Lemma settle_failure now st j :
  worker st = AwaitingDelivery j ->
  settle false now st = loop (after_failure now j st).
Proof. unfold settle. now intros ->. Qed.

Lemma settle_success now st j :
  worker st = AwaitingDelivery j ->
  settle true now st
  = set_worker AwaitingDelay
      (log INFO "Email job processed successfully" st).
Proof. unfold settle. now intros ->. Qed.

Lemma after_failure_queue now j st :
  emailQueue (after_failure now j st)
  = if attempts j <? maxAttempts j
    then emailQueue st ++ [requeued now j]
    else emailQueue st.
Proof.
  unfold after_failure. now destruct (attempts j <? maxAttempts j).
Qed.

Lemma after_failure_emails now j st :
  emails (after_failure now j st) = emails st.
Proof.
  unfold after_failure. now destruct (attempts j <? maxAttempts j).
Qed.

Lemma settle_emails ok now st : emails (settle ok now st) = emails st.
Proof.
  unfold settle. destruct (worker st) as [|j|]; try reflexivity.
  destruct ok; [reflexivity|].
  now rewrite loop_emails, after_failure_emails.
Qed.

Lemma delay_elapsed_emails st : emails (delay_elapsed st) = emails st.
Proof.
  unfold delay_elapsed. destruct (worker st); try reflexivity.
  apply loop_emails.
Qed.

Lemma run_emails fuel oracle k st :
  emails (snd (run fuel oracle k st)) = emails st.
Proof.
  revert k st; induction fuel as [|fuel IH]; intros k st; simpl;
    [reflexivity|].
  destruct (worker st) as [|j|]; [reflexivity| |].
  - specialize (IH (S k) (settle (fst (oracle k)) (snd (oracle k)) st)).
    destruct (run fuel oracle (S k) _) as [deliveries st']. simpl in *.
    now rewrite IH, settle_emails.
  - now rewrite IH, delay_elapsed_emails.
Qed.

Lemma addToQueue_emails d now random st :
  emails (addToQueue d now random st) = emails st.
Proof.
  unfold addToQueue. simpl.
  destruct (negb (isProcessing st)); [|reflexivity].
  now rewrite processQueue_emails.
Qed.

End DrainSteps.

(** ** The drain loop and the ledger (C1, C2) *)



(** C2 as stated fails: every delivery of Alice's welcome job fails; the
    job is delivered four times and leaves the queue, and her ledger record
    is still 'pending' with no error message. *)
Lemma exhausted_job_leaves_record_pending :
  let r := EmailService.run 20 Samples.always_fails 0 Samples.welcomed in
  map EmailService.attempts (fst r) = [0; 1; 2; 3]
  /\ EmailService.emailQueue (snd r) = []
  /\ EmailService.worker (snd r) = EmailService.Idle
  /\ exists e,
       EmailService.emails (snd r) = [e]
       /\ Email.status e <> Email.failed
       /\ Email.errorMessage e = None.
Proof.
  vm_compute.
  split; [reflexivity|]. split; [reflexivity|]. split; [reflexivity|].
  eexists. split; [reflexivity|]. split; [discriminate|reflexivity].
Qed.

Lemma run_idle fuel oracle k st :
  EmailService.worker st = EmailService.Idle ->
  EmailService.run fuel oracle k st = ([], st).
Proof. intros Hw. destruct fuel; simpl; [reflexivity|now rewrite Hw]. Qed.

Lemma run_delivery fuel oracle k st j :
  EmailService.worker st = EmailService.AwaitingDelivery j ->
  EmailService.run (S fuel) oracle k st
  = (j :: fst (EmailService.run fuel oracle (S k)
                 (EmailService.settle (fst (oracle k)) (snd (oracle k)) st)),
     snd (EmailService.run fuel oracle (S k)
            (EmailService.settle (fst (oracle k)) (snd (oracle k)) st))).
Proof.
  intros Hw. simpl. rewrite Hw.
  now destruct (EmailService.run fuel oracle (S k) _).
Qed.

Lemma run_delay fuel oracle k st :
  EmailService.worker st = EmailService.AwaitingDelay ->
  EmailService.run (S fuel) oracle k st
  = EmailService.run fuel oracle k (EmailService.loop st).
Proof.
  intros Hw. simpl. rewrite Hw.
  unfold EmailService.delay_elapsed. now rewrite Hw.
Qed.

(** A job alone in the loop whose deliveries all fail: it is delivered once
    for each attempt left and once more, then the loop returns. *)
Lemma run_failing_alone (n : nat) :
  forall fuel oracle k st j,
    EmailService.worker st = EmailService.AwaitingDelivery j ->
    EmailService.emailQueue st = [] ->
    EmailService.maxAttempts j - EmailService.attempts j = Z.of_nat n ->
    (forall i, fst (oracle i) = false) ->
    (n < fuel)%nat ->
    let r := EmailService.run fuel oracle k st in
    List.length (fst r) = S n
    /\ EmailService.emailQueue (snd r) = []
    /\ EmailService.worker (snd r) = EmailService.Idle
    /\ EmailService.isProcessing (snd r) = false.
Proof.
  induction n as [|n IH]; intros fuel oracle k st j Hw Hq Hn Hfail Hfuel;
    (destruct fuel as [|fuel]; [lia|]);
    rewrite (run_delivery _ _ _ _ _ Hw), Hfail,
      (settle_failure _ _ _ Hw); simpl.
  - assert (Hge : (EmailService.attempts j <? EmailService.maxAttempts j)
                  = false) by (apply Z.ltb_ge; lia).
    assert (Hq' : EmailService.emailQueue
                    (EmailService.after_failure (snd (oracle k)) j st) = [])
      by (rewrite after_failure_queue, Hge; exact Hq).
    rewrite (loop_nil _ Hq'), run_idle by reflexivity.
    simpl. auto.
  - assert (Hlt : (EmailService.attempts j <? EmailService.maxAttempts j)
                  = true) by (apply Z.ltb_lt; lia).
    assert (Hq' : EmailService.emailQueue
                    (EmailService.after_failure (snd (oracle k)) j st)
                  = [EmailService.requeued (snd (oracle k)) j])
      by (rewrite after_failure_queue, Hlt, Hq; reflexivity).
    rewrite (loop_cons _ _ _ Hq').
    match goal with
    | |- context [EmailService.run fuel oracle (S k) ?s] =>
        destruct (IH fuel oracle (S k) s
                    (EmailService.requeued (snd (oracle k)) j))
          as (Hlen & Hqe & Hwe & Hpe);
        [reflexivity | reflexivity | simpl; lia | exact Hfail | lia |]
    end.
    rewrite Hlen. auto.
Qed.

(** C2, amended: when a delivery fails and the job's attempts have reached
    [maxAttempts], the job is not appended again: the loop goes on with the
    rest of the queue as it was.  A job alone in the loop whose deliveries
    keep failing is delivered [maxAttempts - attempts + 1] times and then is
    in the queue no more.  The ledger is not touched: no record becomes
    'failed' and none gets an error message. *)
Theorem exhausted_job_not_requeued
    (st : EmailService.State) (j : EmailService.Job) (now : Z) :
  EmailService.worker st = EmailService.AwaitingDelivery j ->
  (EmailService.attempts j >= EmailService.maxAttempts j ->
   let st' := EmailService.settle false now st in
   EmailService.emailQueue st' = tl (EmailService.emailQueue st)
   /\ EmailService.worker st'
      = match EmailService.emailQueue st with
        | [] => EmailService.Idle
        | next :: _ => EmailService.AwaitingDelivery next
        end
   /\ EmailService.emails st' = EmailService.emails st)
  /\ (EmailService.attempts j <= EmailService.maxAttempts j ->
      EmailService.emailQueue st = [] ->
      forall oracle k fuel,
        (forall i, fst (oracle i) = false) ->
        (Z.to_nat (EmailService.maxAttempts j - EmailService.attempts j)
         < fuel)%nat ->
        let r := EmailService.run fuel oracle k st in
        Z.of_nat (List.length (fst r))
        = EmailService.maxAttempts j - EmailService.attempts j + 1
        /\ EmailService.emailQueue (snd r) = []
        /\ EmailService.worker (snd r) = EmailService.Idle
        /\ EmailService.emails (snd r) = EmailService.emails st).
Proof.
  intros Hw. split.
  - intros Hge st'. subst st'.
    rewrite (settle_failure _ _ _ Hw).
    destruct (loop_shift (EmailService.after_failure now j st)) as [Hq Hwk].
    rewrite Hq, Hwk, loop_emails, after_failure_emails, after_failure_queue.
    assert (Hb : (EmailService.attempts j <? EmailService.maxAttempts j)
                 = false) by (apply Z.ltb_ge; lia).
    rewrite Hb. auto.
  - intros Hle Hq oracle k fuel Hfail Hfuel r.
    destruct (run_failing_alone
                (Z.to_nat (EmailService.maxAttempts j
                           - EmailService.attempts j))
                fuel oracle k st j Hw Hq) as (Hlen & Hqe & Hwe & _);
      [lia | exact Hfail | exact Hfuel |].
    subst r. rewrite Hlen, run_emails. repeat split; auto. lia.
Qed.

(** The amended C2 on Alice's welcome job at its last attempt. *)
Lemma exhausted_job_not_requeued_witness :
  let st := Samples.last_attempt in
  (EmailService.emailQueue (EmailService.settle false 1500 st) = []
   /\ EmailService.worker (EmailService.settle false 1500 st)
      = EmailService.Idle
   /\ EmailService.emails (EmailService.settle false 1500 st)
      = EmailService.emails st)
  /\ (let r := EmailService.run 5 Samples.always_fails 0 st in
      Z.of_nat (List.length (fst r)) = 3 - 3 + 1
      /\ EmailService.emailQueue (snd r) = []
      /\ EmailService.worker (snd r) = EmailService.Idle
      /\ EmailService.emails (snd r) = EmailService.emails st).
Proof.
  intros st.
  destruct (exhausted_job_not_requeued st Samples.last_job 1500 eq_refl)
    as [Hstep Hrun].
  split.
  - apply Hstep. simpl; lia.
  - apply (Hrun ltac:(simpl; lia) eq_refl Samples.always_fails O 5%nat).
    + intros i; reflexivity.
    + simpl; lia.
Defined.

(** ** Enqueue (C7) *)

Lemma addToQueue_spec d now random st :
  let j := EmailService.newJob d now random in
  let st' := EmailService.addToQueue d now random st in
  EmailService.emailQueue st'
  = (if EmailService.isProcessing st
     then EmailService.emailQueue st ++ [j]
     else tl (EmailService.emailQueue st ++ [j]))
  /\ EmailService.worker st'
     = (if EmailService.isProcessing st
        then EmailService.worker st
        else EmailService.AwaitingDelivery
               (hd j (EmailService.emailQueue st ++ [j])))
  /\ EmailService.isProcessing st' = true.
Proof.
  destruct st as [q flag w db lg].
  unfold EmailService.addToQueue, EmailService.processQueue; simpl.
  destruct flag; simpl; [auto|].
  destruct q; simpl; auto.
Qed.



(** ** Termination of a drain (C9) *)

Section Termination.

Import EmailService.

Lemma total_app w q1 q2 :
  total w (q1 ++ q2) = (total w q1 + total w q2)%nat.
Proof. induction q1 as [|j q1 IH]; simpl; [reflexivity|]. lia. Qed.

Lemma deliveries_left_requeued now j :
  attempts j < maxAttempts j ->
  S (deliveries_left (requeued now j)) = deliveries_left j.
Proof.
  intros Hlt. unfold deliveries_left.
  change (attempts (requeued now j)) with (attempts j + 1).
  change (maxAttempts (requeued now j)) with (maxAttempts j).
  lia.
Qed.

Lemma measure_loop st : measure (loop st) = total weight (emailQueue st).
Proof.
  destruct st as [q flag w db lg].
  destruct q as [|j rest]; [reflexivity|].
  change (total weight rest + weight j
          = weight j + total weight rest)%nat.
  apply Nat.add_comm.
Qed.

Lemma deliveries_bound_loop st :
  deliveries_bound (loop st) = total deliveries_left (emailQueue st).
Proof.
  destruct st as [q flag w db lg].
  destruct q as [|j rest]; [reflexivity|].
  change (total deliveries_left rest + deliveries_left j
          = deliveries_left j + total deliveries_left rest)%nat.
  apply Nat.add_comm.
Qed.

(** The queue the [catch] block leaves weighs less than the queue and the
    failed job did. *)
Lemma after_failure_total (w : Job -> nat) now j st :
  (forall t, attempts j < maxAttempts j -> S (w (requeued t j)) = w j) ->
  (0 < w j)%nat ->
  (total w (emailQueue (after_failure now j st))
   < total w (emailQueue st) + w j)%nat.
Proof.
  intros Hre Hpos. rewrite after_failure_queue.
  destruct (attempts j <? maxAttempts j) eqn:Hlt; [|lia].
  apply Z.ltb_lt in Hlt. specialize (Hre now Hlt).
  rewrite total_app; simpl. lia.
Qed.

Lemma settle_measure ok now st j :
  worker st = AwaitingDelivery j ->
  (measure (settle ok now st) < measure st)%nat.
Proof.
  intros Hw. destruct ok.
  - rewrite (settle_success _ _ _ Hw).
    unfold measure; simpl. rewrite Hw. unfold weight, deliveries_left. lia.
  - rewrite (settle_failure _ _ _ Hw), measure_loop.
    unfold measure. rewrite Hw.
    apply after_failure_total; [|unfold weight; lia].
    intros t Hlt. unfold weight.
    now rewrite (deliveries_left_requeued t j Hlt).
Qed.

Lemma settle_deliveries_bound ok now st j :
  worker st = AwaitingDelivery j ->
  (deliveries_bound (settle ok now st) < deliveries_bound st)%nat.
Proof.
  intros Hw. destruct ok.
  - rewrite (settle_success _ _ _ Hw).
    unfold deliveries_bound; simpl. rewrite Hw. unfold deliveries_left. lia.
  - rewrite (settle_failure _ _ _ Hw), deliveries_bound_loop.
    unfold deliveries_bound. rewrite Hw.
    apply after_failure_total; [|unfold deliveries_left; lia].
    intros t Hlt. now apply deliveries_left_requeued.
Qed.

Lemma settle_quiescent ok now st j :
  worker st = AwaitingDelivery j -> quiescent (settle ok now st).
Proof.
  intros Hw. destruct ok.
  - rewrite (settle_success _ _ _ Hw). unfold quiescent; simpl. discriminate.
  - rewrite (settle_failure _ _ _ Hw). apply loop_quiescent.
Qed.

(** With fuel for every resumption left, the worker returns. *)
Lemma run_returns fuel :
  forall oracle k st,
    (measure st <= fuel)%nat ->
    quiescent st ->
    let r := run fuel oracle k st in
    emailQueue (snd r) = []
    /\ isProcessing (snd r) = false
    /\ worker (snd r) = Idle.
Proof.
  induction fuel as [|fuel IH]; intros oracle k st Hm Hquiet.
  - assert (Hw : worker st = Idle).
    { unfold measure in Hm. destruct (worker st) as [|j|];
        [reflexivity|unfold weight in Hm; lia|lia]. }
    simpl. destruct (Hquiet Hw). auto.
  - destruct (worker st) as [|j|] eqn:Hw.
    + rewrite run_idle by exact Hw. simpl. destruct (Hquiet Hw). auto.
    + rewrite (run_delivery _ _ _ _ _ Hw). simpl.
      apply IH; [|eapply settle_quiescent; eauto].
      pose proof (settle_measure (fst (oracle k)) (snd (oracle k)) st j Hw).
      lia.
    + rewrite (run_delay _ _ _ _ Hw).
      apply IH; [|apply loop_quiescent].
      rewrite measure_loop. unfold measure in Hm. rewrite Hw in Hm. lia.
Qed.

Lemma run_deliveries_bound fuel :
  forall oracle k st,
    (List.length (fst (run fuel oracle k st)) <= deliveries_bound st)%nat.
Proof.
  induction fuel as [|fuel IH]; intros oracle k st; [simpl; lia|].
  destruct (worker st) as [|j|] eqn:Hw.
  - rewrite run_idle by exact Hw. simpl; lia.
  - rewrite (run_delivery _ _ _ _ _ Hw). simpl.
    pose proof (IH oracle (S k)
                  (settle (fst (oracle k)) (snd (oracle k)) st)).
    pose proof (settle_deliveries_bound (fst (oracle k)) (snd (oracle k))
                  st j Hw).
    lia.
  - rewrite (run_delay _ _ _ _ Hw).
    pose proof (IH oracle k (loop st)) as H.
    rewrite deliveries_bound_loop in H.
    unfold deliveries_bound. rewrite Hw. lia.
Qed.

Lemma processQueue_started st :
  isProcessing st = false ->
  worker st = Idle ->
  measure (processQueue st) = total weight (emailQueue st)
  /\ deliveries_bound (processQueue st)
     = total deliveries_left (emailQueue st)
  /\ quiescent (processQueue st).
Proof.
  intros Hp Hw. unfold processQueue. rewrite Hp; simpl.
  destruct (emailQueue st) as [|j rest] eqn:Hq; simpl.
  - unfold measure, deliveries_bound, quiescent.
    rewrite Hq, Hw; simpl. auto.
  - rewrite measure_loop, deliveries_bound_loop; simpl. rewrite Hq.
    split; [reflexivity|]. split; [reflexivity|]. apply loop_quiescent.
Qed.

End Termination.

(** C9: a drain loop started on any queue returns, whatever the deliveries
    do: within one resumption for each delivery and delay the jobs can still
    cause, the queue is empty, the flag is down and the worker has returned;
    no job is delivered more than once plus once for each attempt it had
    left. *)
Theorem processQueue_terminates
    (st : EmailService.State) (oracle : nat -> bool * Z) :
  EmailService.isProcessing st = false ->
  EmailService.worker st = EmailService.Idle ->
  let fuel := EmailService.total EmailService.weight
                (EmailService.emailQueue st) in
  let r := EmailService.run fuel oracle 0 (EmailService.processQueue st) in
  EmailService.emailQueue (snd r) = []
  /\ EmailService.isProcessing (snd r) = false
  /\ EmailService.worker (snd r) = EmailService.Idle
  /\ (List.length (fst r)
      <= EmailService.total EmailService.deliveries_left
           (EmailService.emailQueue st))%nat.
Proof.
  intros Hp Hw fuel r.
  destruct (processQueue_started st Hp Hw) as (Hm & Hd & Hquiet).
  destruct (run_returns fuel oracle O (EmailService.processQueue st))
    as (Hq' & Hp' & Hw'); [unfold fuel; lia | exact Hquiet |].
  repeat split; auto.
  subst r. rewrite <- Hd. apply run_deliveries_bound.
Qed.

(** The C9 theorem on a backlog of two jobs whose first delivery fails
    every time. *)
Lemma processQueue_terminates_witness :
  let r := EmailService.run 10 Samples.always_fails 0
             (EmailService.processQueue Samples.backlog) in
  EmailService.emailQueue (snd r) = []
  /\ EmailService.isProcessing (snd r) = false
  /\ EmailService.worker (snd r) = EmailService.Idle
  /\ (List.length (fst r) <= 8)%nat.
Proof.
  apply (processQueue_terminates Samples.backlog Samples.always_fails);
    reflexivity.
Defined.

(** ** Order of the queue (C8) *)

Section Fifo.

Import EmailService.

Lemma total_weight_ge q : (2 * List.length q <= total weight q)%nat.
Proof.
  induction q as [|j q IH]; [simpl; lia|].
  change (total weight (j :: q)) with (weight j + total weight q)%nat.
  change (List.length (j :: q)) with (S (List.length q)).
  unfold weight at 1. unfold deliveries_left. lia.
Qed.

(** The jobs at the head of the queue are delivered first and in order,
    whatever is behind them and whatever the deliveries do. *)
Lemma run_loop_prefix q :
  forall extra st fuel oracle k,
    emailQueue st = q ++ extra ->
    (2 * List.length q <= fuel)%nat ->
    exists later, fst (run fuel oracle k (loop st)) = q ++ later.
Proof.
  induction q as [|j q IH]; intros extra st fuel oracle k Hq Hfuel.
  - eexists. reflexivity.
  - destruct (loop_shift st) as [Hq' Hw']. rewrite Hq in Hq', Hw'.
    simpl in Hq', Hw', Hfuel.
    destruct fuel as [|fuel]; [lia|].
    rewrite (run_delivery _ _ _ _ _ Hw'). simpl.
    destruct (fst (oracle k)).
    + rewrite (settle_success _ _ _ Hw').
      destruct fuel as [|fuel]; [lia|].
      rewrite run_delay by reflexivity.
      destruct (IH extra
                  (set_worker AwaitingDelay
                     (log INFO "Email job processed successfully"
                        (loop st)))
                  fuel oracle (S k)) as [later Hl]; [exact Hq'|lia|].
      exists later. now rewrite Hl.
    + rewrite (settle_failure _ _ _ Hw').
      destruct (IH (if attempts j <? maxAttempts j
                    then extra ++ [requeued (snd (oracle k)) j]
                    else extra)
                  (after_failure (snd (oracle k)) j (loop st))
                  fuel oracle (S k)) as [later Hl]; [|lia|].
      * rewrite after_failure_queue, Hq'.
        destruct (attempts j <? maxAttempts j); [|reflexivity].
        now rewrite <- app_assoc.
      * exists later. now rewrite Hl.
Qed.

End Fifo.

(** A low-priority job queued before an urgent one is delivered before it;
    when its delivery fails, it is tried again after the urgent one. *)
Example backlog_delivered_in_queue_order :
  fst (EmailService.run 10 Samples.always_succeeds 0
         (EmailService.processQueue Samples.backlog))
  = [Samples.low_job; Samples.urgent_job]
  /\ fst (EmailService.run 10 Samples.fails_once 0
            (EmailService.processQueue Samples.backlog))
     = [Samples.low_job; Samples.urgent_job;
        EmailService.requeued 2000 Samples.low_job].
Proof. split; reflexivity. Qed.

(** C8: the queue is first in, first out.  The loop always takes the head
    of the queue; Enqueue puts the new job at the tail; a job that failed
    with attempts left goes back to the tail, behind every job that was
    queued meanwhile; and a drain delivers the jobs it finds in the queue in
    their queue order before any retry, whatever their priorities. *)
Theorem emailQueue_is_fifo :
  (forall st j rest,
     EmailService.emailQueue st = j :: rest ->
     EmailService.worker (EmailService.loop st)
     = EmailService.AwaitingDelivery j
     /\ EmailService.emailQueue (EmailService.loop st) = rest)
  /\ (forall emailData now random st,
        EmailService.isProcessing st = true ->
        EmailService.emailQueue
          (EmailService.addToQueue emailData now random st)
        = EmailService.emailQueue st
          ++ [EmailService.newJob emailData now random])
  /\ (forall st j now,
        EmailService.worker st = EmailService.AwaitingDelivery j ->
        EmailService.attempts j < EmailService.maxAttempts j ->
        let st' := EmailService.settle false now st in
        match EmailService.emailQueue st with
        | [] =>
            EmailService.worker st'
            = EmailService.AwaitingDelivery (EmailService.requeued now j)
            /\ EmailService.emailQueue st' = []
        | next :: rest =>
            EmailService.worker st' = EmailService.AwaitingDelivery next
            /\ EmailService.emailQueue st'
               = rest ++ [EmailService.requeued now j]
        end)
  /\ (forall st oracle,
        EmailService.isProcessing st = false ->
        EmailService.worker st = EmailService.Idle ->
        exists later,
          fst (EmailService.run
                 (EmailService.total EmailService.weight
                    (EmailService.emailQueue st))
                 oracle 0 (EmailService.processQueue st))
          = EmailService.emailQueue st ++ later).
Proof.
  split; [|split; [|split]].
  - intros st j rest Hq.
    destruct (loop_shift st) as [Hq' Hw']. rewrite Hq in Hq', Hw'. auto.
  - intros emailData now random st Hp.
    destruct (addToQueue_spec emailData now random st) as [Hq _].
    now rewrite Hp in Hq.
  - intros st j now Hw Hlt st'. subst st'.
    rewrite (settle_failure _ _ _ Hw).
    destruct (loop_shift (EmailService.after_failure now j st)) as [Hq' Hw'].
    rewrite after_failure_queue in Hq', Hw'.
    apply Z.ltb_lt in Hlt. rewrite Hlt in Hq', Hw'.
    destruct (EmailService.emailQueue st) as [|next rest]; simpl in *; auto.
  - intros st oracle Hp Hw.
    unfold EmailService.processQueue. rewrite Hp; simpl.
    destruct (EmailService.emailQueue st) as [|j rest] eqn:Hq.
    + simpl. now exists [].
    + cbn [List.length Nat.eqb].
      apply (run_loop_prefix (j :: rest) []).
      * simpl. now rewrite Hq, app_nil_r.
      * apply total_weight_ge.
Qed.

(** The C8 theorem on a running dispatcher, on a failed job with attempts
    left and on a backlog with a low-priority job ahead of an urgent one. *)
Lemma emailQueue_is_fifo_witness :
  (EmailService.worker (EmailService.loop Samples.backlog)
   = EmailService.AwaitingDelivery Samples.low_job
   /\ EmailService.emailQueue (EmailService.loop Samples.backlog)
      = [Samples.urgent_job])
  /\ EmailService.emailQueue
       (EmailService.addToQueue Samples.welcome_data 1100 6 Samples.welcomed)
     = [EmailService.newJob Samples.welcome_data 1100 6]
  /\ (EmailService.worker
        (EmailService.settle false 1500 (EmailService.loop Samples.backlog))
      = EmailService.AwaitingDelivery Samples.urgent_job
      /\ EmailService.emailQueue
           (EmailService.settle false 1500
              (EmailService.loop Samples.backlog))
         = [EmailService.requeued 1500 Samples.low_job])
  /\ (exists later,
        fst (EmailService.run 10 Samples.always_fails 0
               (EmailService.processQueue Samples.backlog))
        = EmailService.emailQueue Samples.backlog ++ later).
Proof.
  destruct emailQueue_is_fifo as (Hhead & Htail & Hretry & Hrun).
  split; [|split; [|split]].
  - apply (Hhead Samples.backlog _ _ eq_refl).
  - apply (Htail Samples.welcome_data 1100 6 Samples.welcomed eq_refl).
  - apply (Hretry (EmailService.loop Samples.backlog) Samples.low_job 1500
             eq_refl).
    simpl; lia.
  - apply (Hrun Samples.backlog Samples.always_fails eq_refl eq_refl).
Defined.

(** ** The attempt budget of a queued job (C10) *)

Lemma findById_id i db e : Email.findById i db = Some e -> Email.id e = i.
Proof.
  unfold Email.findById. intros H. apply find_some in H.
  now apply Z.eqb_eq.
Qed.

Lemma findById_replace d db e :
  Email.findById (Email.id d) db = Some e ->
  Email.findById (Email.id d) (Email.replace d db) = Some d.
Proof.
  unfold Email.findById.
  induction db as [|x db IH]; simpl; [discriminate|].
  destruct (Email.id x =? Email.id d) eqn:Hx; simpl.
  - now rewrite Z.eqb_refl.
  - rewrite Hx. exact IH.
Qed.

Lemma addToQueue_holds_job d now random st :
  let j := EmailService.newJob d now random in
  let st' := EmailService.addToQueue d now random st in
  In j (EmailService.emailQueue st')
  \/ EmailService.worker st' = EmailService.AwaitingDelivery j.
Proof.
  intros j st'.
  destruct (addToQueue_spec d now random st) as (Hq & Hw & _).
  fold j st' in Hq, Hw. rewrite Hq, Hw.
  destruct (EmailService.isProcessing st).
  - left. apply in_or_app. right. now left.
  - destruct (EmailService.emailQueue st) as [|h t]; simpl.
    + now right.
    + left. apply in_or_app. right. now left.
Qed.

(** What a retry that the store accepts does to an eligible record. *)
Lemma retry_saved now e db :
  Email.findById (Email.id e) db = Some e ->
  Email.attempts e < Email.maxAttempts e ->
  exists e',
    Email.retry None now e db = (Ok tt, e', Email.replace e' db)
    /\ Email.id e' = Email.id e
    /\ Email.to e' = Email.to e
    /\ Email.status e' = Email.pending
    /\ Email.attempts e' = Email.attempts e
    /\ Email.maxAttempts e' = Email.maxAttempts e.
Proof.
  intros Hf Hlt. unfold Email.retry, Email.save.
  apply Z.ltb_lt in Hlt. rewrite Hlt. simpl. rewrite Hf.
  eexists. split; [reflexivity|].
  unfold Email.pre_save.
  destruct (Email.isModified_status _ db); simpl; auto.
Qed.

(** C10: the job [addToQueue] appends starts with no attempts and a budget
    of three, whatever the submitted data hold under those names.  A record
    sent again by Retry keeps its stored attempts while its new job starts
    from none; so a record with two attempts of three can get four more
    simulated deliveries, more than its [maxAttempts]. *)
Theorem addToQueue_fresh_budget :
  (forall emailData now random st,
     let j := EmailService.newJob emailData now random in
     let st' := EmailService.addToQueue emailData now random st in
     EmailService.attempts j = 0
     /\ EmailService.maxAttempts j = 3
     /\ (In j (EmailService.emailQueue st')
         \/ EmailService.worker st' = EmailService.AwaitingDelivery j))
  /\ (forall emailId now random st email,
        Email.findById emailId (EmailService.emails st) = Some email ->
        Email.canRetry email = true ->
        let r :=
          EmailService.retryFailedEmail emailId now random None None st in
        exists email' j,
          fst r = Ok email'
          /\ Email.findById emailId (EmailService.emails (snd r))
             = Some email'
          /\ Email.status email' = Email.pending
          /\ Email.attempts email' = Email.attempts email
          /\ EmailService.to j = Email.to email
          /\ EmailService.attempts j = 0
          /\ EmailService.maxAttempts j = 3
          /\ (In j (EmailService.emailQueue (snd r))
              \/ EmailService.worker (snd r)
                 = EmailService.AwaitingDelivery j))
  /\ (let r := EmailService.retryFailedEmail 1 500 9 None None
                 (EmailService.set_emails Samples.retryable Samples.idle) in
      let out := EmailService.run 20 Samples.always_fails 0 (snd r) in
      exists email',
        fst r = Ok email'
        /\ Email.attempts email' = 2
        /\ Email.maxAttempts email' = 3
        /\ Forall (fun j => EmailService.id j = (500, 9)
                            /\ EmailService.to j = Email.to email')
                  (fst out)
        /\ Z.of_nat (List.length (fst out)) = 4
        /\ Z.of_nat (List.length (fst out)) > Email.maxAttempts email'
        /\ EmailService.worker (snd out) = EmailService.Idle
        /\ map Email.attempts (EmailService.emails (snd out)) = [2]).
Proof.
  split; [|split].
  - intros emailData now random st j st'.
    split; [reflexivity|]. split; [reflexivity|].
    apply addToQueue_holds_job.
  - intros emailId now random st email Hf Hc r.
    pose proof (findById_id _ _ _ Hf) as Hid. subst emailId.
    pose proof Hc as Hcan.
    apply canRetry_true in Hc. destruct Hc as [_ Hlt].
    destruct (retry_saved now email (EmailService.emails st) Hf Hlt)
      as (e' & Hr & Hid' & Hto & Hst & Hat & Hmax).
    subst r. unfold EmailService.retryFailedEmail.
    rewrite Hf.
    rewrite Hcan. simpl. rewrite Hr.
    set (d := EmailService.mkData (Email.to e') (Email.subject e')
                (Email.content e') (Email.type e') (Email.recipient e')
                (Email.sender e') (Email.relatedTask e')
                (Email.priority e') None None).
    exists e', (EmailService.newJob d now random). simpl.
    rewrite addToQueue_emails. simpl.
    repeat split; auto.
    + rewrite <- Hid'. apply (findById_replace e' _ email).
      now rewrite Hid'.
    + apply (addToQueue_holds_job d now random).
  - vm_compute. eexists. split; [reflexivity|].
    repeat split; try reflexivity.
    repeat (constructor; [split; reflexivity|]). constructor.
Qed.

(** The C10 theorem on a failed record with one attempt left. *)
Lemma addToQueue_fresh_budget_witness :
  let email := Samples.ledger_record 1 Email.failed Email.normal 10 2 101 in
  let r := EmailService.retryFailedEmail 1 500 9 None None
             (EmailService.set_emails Samples.retryable Samples.idle) in
  exists email' j,
    fst r = Ok email'
    /\ Email.findById 1 (EmailService.emails (snd r)) = Some email'
    /\ Email.status email' = Email.pending
    /\ Email.attempts email' = Email.attempts email
    /\ EmailService.to j = Email.to email
    /\ EmailService.attempts j = 0
    /\ EmailService.maxAttempts j = 3
    /\ (In j (EmailService.emailQueue (snd r))
        \/ EmailService.worker (snd r) = EmailService.AwaitingDelivery j).
Proof.
  intros email.
  apply (proj1 (proj2 addToQueue_fresh_budget) 1 500 9
           (EmailService.set_emails Samples.retryable Samples.idle) email);
    reflexivity.
Defined.

(** * More of the dispatcher *)

(** ** The record behind its methods *)

Lemma save_keeps_shape fault now d db :
  let d' := Lifecycle.doc (Email.save fault now d db) in
  Email.status d' = Email.status d
  /\ Email.errorMessage d' = Email.errorMessage d
  /\ (Email.status d = Email.sent \/ Email.sentAt d' = Email.sentAt d)
  /\ (Email.status d = Email.processing
      \/ Email.processedAt d' = Email.processedAt d)
  /\ (Email.sentAt d <> None -> Email.sentAt d' <> None)
  /\ (Email.processedAt d <> None -> Email.processedAt d' <> None).
Proof.
  unfold Lifecycle.doc, Email.save, Email.pre_save.
  destruct fault, (Email.findById (Email.id d) db),
    (Email.isModified_status d db),
    d as [? ? ? ? ? [] ? ? ? ? ? ? ? ? ? ? ? ?];
    simpl; repeat split; auto; try discriminate.
Qed.

(** Whatever the four methods are called with, and in whatever order, a
    record made at Enqueue stays well formed: sent records have [sentAt],
    failed ones [errorMessage], processing ones [processedAt], and pending
    ones none of the three. *)
Theorem lifecycle_keeps_records_well_formed
    (oid now : Z) (emailData : EmailService.EmailData) (e : Email.t) :
  Lifecycle.reachable (EmailService.newEmail oid now emailData) e ->
  Lifecycle.well_formed e.
Proof.
  induction 1 as
    [ | fault t db e Hr IH | fault t db e Hr IH
      | fault t message db e Hr IH | fault t db e Hr IH ].
  - unfold Lifecycle.well_formed; simpl.
    repeat split; auto; discriminate.
  - unfold Email.markAsProcessing.
    match goal with
    | |- Lifecycle.well_formed (Lifecycle.doc (Email.save ?f ?n ?d ?b)) =>
        destruct (save_keeps_shape f n d b) as (Hs & He & Hsent & Hp & _ & Hp')
    end.
    unfold Lifecycle.well_formed. rewrite Hs. simpl.
    repeat split; try discriminate.
    intros _. apply Hp'. simpl. discriminate.
  - unfold Email.markAsSent.
    match goal with
    | |- Lifecycle.well_formed (Lifecycle.doc (Email.save ?f ?n ?d ?b)) =>
        destruct (save_keeps_shape f n d b) as (Hs & He & _ & _ & Hsent & _)
    end.
    unfold Lifecycle.well_formed. rewrite Hs. simpl.
    repeat split; try discriminate.
    intros _. apply Hsent. simpl. discriminate.
  - unfold Email.markAsFailed.
    match goal with
    | |- Lifecycle.well_formed (Lifecycle.doc (Email.save ?f ?n ?d ?b)) =>
        destruct (save_keeps_shape f n d b) as (Hs & He & _)
    end.
    unfold Lifecycle.well_formed. rewrite Hs, He. simpl.
    repeat split; discriminate.
  - unfold Email.retry.
    destruct (Email.attempts e <? Email.maxAttempts e); [|exact IH].
    match goal with
    | |- Lifecycle.well_formed (Lifecycle.doc (Email.save ?f ?n ?d ?b)) =>
        destruct (save_keeps_shape f n d b)
          as (Hs & He & [Hsent|Hsent] & [Hp|Hp] & _);
          simpl in Hs, He, Hsent, Hp; try discriminate
    end.
    unfold Lifecycle.well_formed. rewrite Hs, He, Hsent, Hp. simpl.
    repeat split; discriminate.
Qed.

(** A record that was processed, sent, failed and retried. *)
Lemma lifecycle_keeps_records_well_formed_witness :
  let e0 := EmailService.newEmail 1 100 Samples.welcome_data in
  let e1 := Lifecycle.doc (Email.markAsProcessing None 200 e0 [e0]) in
  let e2 := Lifecycle.doc (Email.markAsSent (Some "down") 201 e1 [e1]) in
  let e3 := Lifecycle.doc (Email.markAsFailed None 202 "down" e2 [e1]) in
  let e4 := Lifecycle.doc (Email.retry None 203 e3 [e3]) in
  Lifecycle.well_formed e4.
Proof.
  intros e0 e1 e2 e3 e4.
  apply (lifecycle_keeps_records_well_formed 1 100 Samples.welcome_data e4).
  apply Lifecycle.reach_retry, Lifecycle.reach_failed, Lifecycle.reach_sent,
    Lifecycle.reach_processing, Lifecycle.reach_created.
Defined.

(** A record that fails and is retried is the pending record it was,
    except for [updatedAt]: the error message and the processing date that
    the failure wrote are cleared, and the attempts are as before. *)
Theorem markAsFailed_then_retry (t1 t2 : Z) (message : string)
    (e stored : Email.t) (db : Email.Collection) :
  Email.findById (Email.id e) db = Some stored ->
  Email.status e = Email.pending ->
  Email.processedAt e = None ->
  Email.sentAt e = None ->
  Email.errorMessage e = None ->
  Email.attempts e < Email.maxAttempts e ->
  exists failed_ db1 db2,
    Email.markAsFailed None t1 message e db = (Ok tt, failed_, db1)
    /\ Email.status failed_ = Email.failed
    /\ Email.errorMessage failed_ = Some message
    /\ Email.retry None t2 failed_ db1
       = (Ok tt, Email.set_updatedAt t2 e, db2)
    /\ Email.findById (Email.id e) db2 = Some (Email.set_updatedAt t2 e).
Proof.
  intros Hf Hs Hp Hsent Herr Hlt.
  destruct e as [i to_ subj cont ty st pr rc sd rt sch pa sa at_ mx em ca ua].
  simpl in *. subst st pa sa em.
  set (failed_ :=
         Email.mk i to_ subj cont ty Email.failed pr rc sd rt sch (Some t1)
                  None at_ mx (Some message) ca t1).
  assert (H1 : Email.markAsFailed None t1 message
                 (Email.mk i to_ subj cont ty Email.pending pr rc sd rt sch
                    None None at_ mx None ca ua) db
               = (Ok tt, failed_, Email.replace failed_ db)).
  { unfold Email.markAsFailed, Email.save, Email.pre_save; simpl.
    rewrite Hf.
    destruct (Email.isModified_status _ db); reflexivity. }
  assert (Hf1 : Email.findById i (Email.replace failed_ db) = Some failed_)
    by (apply (findById_replace failed_ db stored); exact Hf).
  set (again :=
         Email.mk i to_ subj cont ty Email.pending pr rc sd rt sch None
                  None at_ mx None ca t2).
  exists failed_, (Email.replace failed_ db),
    (Email.replace again (Email.replace failed_ db)).
  split; [exact H1|]. split; [reflexivity|]. split; [reflexivity|].
  split.
  - unfold Email.retry; simpl. apply Z.ltb_lt in Hlt. rewrite Hlt.
    unfold Email.save, Email.pre_save; simpl. rewrite Hf1.
    destruct (Email.isModified_status _ _); reflexivity.
  - apply (findById_replace again _ failed_). exact Hf1.
Qed.

(** A record of the ledger that fails at time 3001 and is retried at 3002. *)
Lemma markAsFailed_then_retry_witness :
  let e := Samples.ledger_record 2 Email.pending Email.low 20 0 20 in
  exists failed_ db1 db2,
    Email.markAsFailed None 3001 "boom" e Samples.high_and_low
    = (Ok tt, failed_, db1)
    /\ Email.status failed_ = Email.failed
    /\ Email.errorMessage failed_ = Some "boom"
    /\ Email.retry None 3002 failed_ db1
       = (Ok tt, Email.set_updatedAt 3002 e, db2)
    /\ Email.findById (Email.id e) db2 = Some (Email.set_updatedAt 3002 e).
Proof.
  intros e.
  apply (markAsFailed_then_retry 3001 3002 "boom" e e Samples.high_and_low);
    reflexivity.
Defined.

(** ** The queries of the ledger *)

Lemma pending_le_spec a b :
  Email.pending_le a b = true <->
  Email.string_rank (Email.priority b) < Email.string_rank (Email.priority a)
  \/ (Email.string_rank (Email.priority a)
      = Email.string_rank (Email.priority b)
      /\ Email.scheduledAt a <= Email.scheduledAt b).
Proof.
  unfold Email.pending_le.
  destruct (Email.priority a), (Email.priority b); cbn;
    rewrite ?Z.leb_le; split; intros H; try lia; try discriminate;
    try reflexivity.
Qed.

Lemma pending_le_total a b :
  Email.pending_le a b = true \/ Email.pending_le b a = true.
Proof. rewrite !pending_le_spec. lia. Qed.

Lemma pending_le_trans a b c :
  Email.pending_le a b = true -> Email.pending_le b c = true ->
  Email.pending_le a c = true.
Proof. rewrite !pending_le_spec. lia. Qed.

Lemma string_rank_inj p q :
  Email.string_rank p = Email.string_rank q -> p = q.
Proof. destruct p, q; simpl; intros H; try reflexivity; discriminate. Qed.

(** The reconciler's query, for a batch size of at least one: it returns
    pending records that are due and nothing else, as many as the batch
    allows, none of those left out coming before one returned.  The order is
    that of the stored priority strings, greatest first (urgent, normal,
    low, high), and among equal priorities the earlier [scheduledAt]
    first. *)
Theorem getPendingEmails_due_in_string_order
    (now : Z) (n : nat) (db : Email.Collection) :
  (1 <= n)%nat ->
  let due := fun e => Email.status_eqb (Email.status e) Email.pending
                      && (Email.scheduledAt e <=? now) in
  let before := fun a b =>
    Email.string_rank (Email.priority b)
    < Email.string_rank (Email.priority a)
    \/ (Email.priority a = Email.priority b
        /\ Email.scheduledAt a <= Email.scheduledAt b) in
  let res := Email.getPendingEmails now n db in
  exists rest,
    Permutation (res ++ rest) (filter due db)
    /\ List.length res = Nat.min n (List.length (filter due db))
    /\ StronglySorted before res
    /\ (forall a b, In a res -> In b rest -> before a b)
    /\ (forall e, In e res ->
                  In e db
                  /\ Email.status e = Email.pending
                  /\ Email.scheduledAt e <= now).
Proof.
  intros Hn due before res.
  set (sorted := Email.sort_by Email.pending_le (filter due db)).
  assert (Hperm : Permutation (filter due db) sorted)
    by apply sort_by_perm.
  assert (Hsorted : StronglySorted
                      (fun a b => Email.pending_le a b = true) sorted)
    by (apply sort_by_sorted;
        [apply pending_le_total | apply pending_le_trans]).
  assert (Hres : res = firstn n sorted).
  { unfold res, Email.getPendingEmails, Email.limit.
    destruct n; [lia|reflexivity]. }
  assert (Hbefore : forall a b, Email.pending_le a b = true -> before a b).
  { intros a b H. apply pending_le_spec in H. unfold before.
    destruct H as [H|[H1 H2]]; [now left|right].
    split; [now apply string_rank_inj|exact H2]. }
  exists (skipn n sorted). rewrite Hres.
  split; [rewrite firstn_skipn; now symmetry|].
  split; [rewrite length_firstn; now rewrite (Permutation_length Hperm)|].
  split.
  { eapply StronglySorted_impl; [exact Hbefore|].
    apply sorted_firstn. exact Hsorted. }
  split.
  { intros a b Ha Hb. apply Hbefore.
    exact (sorted_firstn_skipn _ _ _ Hsorted a b Ha Hb). }
  intros e He. apply in_firstn in He.
  apply (Permutation_in _ (Permutation_sym Hperm)) in He.
  apply filter_In in He. destruct He as [He Hd]. unfold due in Hd.
  apply andb_true_iff in Hd. destruct Hd as [Hs Hd].
  apply status_eqb_eq in Hs. apply Z.leb_le in Hd. auto.
Qed.

(** The query on the three pending records of the specification's
    scenario, with a batch of two. *)
Lemma getPendingEmails_due_in_string_order_witness :
  let before := fun a b =>
    Email.string_rank (Email.priority b)
    < Email.string_rank (Email.priority a)
    \/ (Email.priority a = Email.priority b
        /\ Email.scheduledAt a <= Email.scheduledAt b) in
  let res := Email.getPendingEmails 100 2 Samples.urgent_low_normal in
  exists rest,
    Permutation (res ++ rest) Samples.urgent_low_normal
    /\ List.length res = 2%nat
    /\ StronglySorted before res
    /\ (forall a b, In a res -> In b rest -> before a b)
    /\ (forall e, In e res ->
                  In e Samples.urgent_low_normal
                  /\ Email.status e = Email.pending
                  /\ Email.scheduledAt e <= 100).
Proof.
  apply (getPendingEmails_due_in_string_order 100 2
           Samples.urgent_low_normal).
  lia.
Defined.

Lemma filter_idem {A} (f : A -> bool) (l : list A) :
  filter f (filter f l) = filter f l.
Proof.
  induction l as [|x l IH]; simpl; [reflexivity|].
  destruct (f x) eqn:Hx; simpl; [rewrite Hx, IH|]; auto.
Qed.

Lemma filter_none {A} (f : A -> bool) (l : list A) :
  filter f (filter (fun x => negb (f x)) l) = [].
Proof.
  induction l as [|x l IH]; simpl; [reflexivity|].
  destruct (f x) eqn:Hx; simpl; [|rewrite Hx]; auto.
Qed.

(** The retention sweep deletes only sent and failed records last updated
    before the cutoff: pending and processing records stay however old they
    are, and so does every record updated at the cutoff or later; the
    records left keep their order, the count returned is the number taken
    out, and a second sweep at the same time deletes nothing. *)
Theorem cleanOldEmails_keeps_unresolved
    (daysBefore : Z -> Z -> Z) (now : Z) (daysOld : option Z)
    (db : Email.Collection) :
  let cutoffDate :=
    daysBefore now (match daysOld with Some n => n | None => 30 end) in
  let r := Email.cleanOldEmails daysBefore now daysOld db in
  (fst r + List.length (snd r) = List.length db)%nat
  /\ (forall e, In e (snd r) <->
                In e db
                /\ (Email.status e = Email.pending
                    \/ Email.status e = Email.processing
                    \/ cutoffDate <= Email.updatedAt e))
  /\ Email.cleanOldEmails daysBefore now daysOld (snd r) = (O, snd r).
Proof.
  intros cutoffDate r. subst r. unfold Email.cleanOldEmails. simpl.
  fold cutoffDate.
  set (doomed := fun e : Email.t =>
         (Email.status_eqb (Email.status e) Email.sent
          || Email.status_eqb (Email.status e) Email.failed)
         && (Email.updatedAt e <? cutoffDate)).
  split; [apply filter_length|]. split.
  - intros e. rewrite filter_In. unfold doomed.
    assert (Hd : negb
                   ((Email.status_eqb (Email.status e) Email.sent
                     || Email.status_eqb (Email.status e) Email.failed)
                    && (Email.updatedAt e <? cutoffDate)) = true
                 <-> Email.status e = Email.pending
                     \/ Email.status e = Email.processing
                     \/ cutoffDate <= Email.updatedAt e).
    { destruct (Email.updatedAt e <? cutoffDate) eqn:Hu;
        [apply Z.ltb_lt in Hu|apply Z.ltb_ge in Hu];
        destruct (Email.status e); simpl; split; intros H;
        try discriminate; try reflexivity; auto;
        destruct H as [H|[H|H]]; try discriminate; lia. }
    tauto.
  - change ((List.length
               (filter doomed (filter (fun e => negb (doomed e)) db)),
             filter (fun e => negb (doomed e))
               (filter (fun e => negb (doomed e)) db))
            = (O, filter (fun e => negb (doomed e)) db)).
    rewrite (filter_none doomed db),
      (filter_idem (fun e => negb (doomed e))).
    reflexivity.
Qed.

(** ** The queue *)

(** ClearQueue returns the number of waiting jobs and leaves the queue
    empty and the ledger alone, but it does not cancel the job whose
    delivery is being simulated: if that delivery then fails with attempts
    left, the job is appended again and the loop takes it at once. *)
Theorem clearQueue_spares_the_job_in_flight
    (st : EmailService.State) (j : EmailService.Job) (now : Z) :
  EmailService.worker st = EmailService.AwaitingDelivery j ->
  EmailService.attempts j < EmailService.maxAttempts j ->
  let r := EmailService.clearQueue st in
  fst r = List.length (EmailService.emailQueue st)
  /\ EmailService.getQueueStatus (snd r)
     = (O, EmailService.isProcessing st, O,
        if EmailService.isProcessing st then "active" else "idle")
  /\ EmailService.emails (snd r) = EmailService.emails st
  /\ EmailService.worker (EmailService.settle false now (snd r))
     = EmailService.AwaitingDelivery (EmailService.requeued now j)
  /\ EmailService.emailQueue (EmailService.settle false now (snd r)) = [].
Proof.
  intros Hw Hlt r. subst r.
  split; [reflexivity|]. split; [reflexivity|]. split; [reflexivity|].
  assert (Hw' : EmailService.worker (snd (EmailService.clearQueue st))
                = EmailService.AwaitingDelivery j) by exact Hw.
  rewrite (settle_failure _ _ _ Hw').
  destruct (loop_shift
              (EmailService.after_failure now j
                 (snd (EmailService.clearQueue st)))) as [Hq Hwk].
  rewrite after_failure_queue in Hq, Hwk.
  apply Z.ltb_lt in Hlt. rewrite Hlt in Hq, Hwk.
  simpl in Hq, Hwk. auto.
Qed.

(** The queue is cleared while the first job of the backlog is being
    delivered. *)
Lemma clearQueue_spares_the_job_in_flight_witness :
  let st := EmailService.loop Samples.backlog in
  let r := EmailService.clearQueue st in
  fst r = 1%nat
  /\ EmailService.getQueueStatus (snd r) = (O, false, O, "idle")
  /\ EmailService.emails (snd r) = EmailService.emails st
  /\ EmailService.worker (EmailService.settle false 1500 (snd r))
     = EmailService.AwaitingDelivery
         (EmailService.requeued 1500 Samples.low_job)
  /\ EmailService.emailQueue (EmailService.settle false 1500 (snd r)) = [].
Proof.
  intros st.
  apply (clearQueue_spares_the_job_in_flight st Samples.low_job 1500).
  - reflexivity.
  - simpl; lia.
Defined.

Lemma run_loop_all_succeed q :
  forall st fuel oracle k,
    EmailService.emailQueue st = q ->
    (forall i, fst (oracle i) = true) ->
    (2 * List.length q <= fuel)%nat ->
    let r := EmailService.run fuel oracle k (EmailService.loop st) in
    fst r = q
    /\ EmailService.emailQueue (snd r) = []
    /\ EmailService.isProcessing (snd r) = false
    /\ EmailService.worker (snd r) = EmailService.Idle.
Proof.
  induction q as [|j q IH]; intros st fuel oracle k Hq Hok Hfuel.
  - destruct (loop_shift st) as [Hq' Hw']. rewrite Hq in Hq', Hw'.
    simpl in Hq', Hw'.
    rewrite run_idle by exact Hw'. simpl.
    destruct (loop_quiescent st Hw'). auto.
  - destruct (loop_shift st) as [Hq' Hw']. rewrite Hq in Hq', Hw'.
    simpl in Hq', Hw', Hfuel.
    destruct fuel as [|[|fuel]]; try lia.
    rewrite (run_delivery _ _ _ _ _ Hw'), Hok,
      (settle_success _ _ _ Hw'), run_delay by reflexivity.
    cbn [fst snd].
    destruct (IH (EmailService.set_worker EmailService.AwaitingDelay
                    (EmailService.log INFO "Email job processed successfully"
                       (EmailService.loop st)))
                fuel oracle (S k)) as (Hd & Hrest); [exact Hq'|exact Hok|lia|].
    rewrite Hd. auto.
Qed.

(** A drain whose deliveries all succeed delivers every waiting job once,
    in the order of the queue, and returns after two resumptions for each
    job with the queue empty and the flag down. *)
Theorem drain_delivers_each_job_once
    (st : EmailService.State) (oracle : nat -> bool * Z) :
  EmailService.isProcessing st = false ->
  EmailService.worker st = EmailService.Idle ->
  (forall i, fst (oracle i) = true) ->
  let fuel := (2 * List.length (EmailService.emailQueue st))%nat in
  let r := EmailService.run fuel oracle 0 (EmailService.processQueue st) in
  fst r = EmailService.emailQueue st
  /\ EmailService.emailQueue (snd r) = []
  /\ EmailService.isProcessing (snd r) = false
  /\ EmailService.worker (snd r) = EmailService.Idle.
Proof.
  intros Hp Hw Hok fuel r. subst r fuel.
  unfold EmailService.processQueue. rewrite Hp.
  destruct (EmailService.emailQueue st) as [|j rest] eqn:Hq.
  - simpl. auto.
  - cbn [List.length Nat.eqb orb].
    apply (run_loop_all_succeed (j :: rest)); [|exact Hok|simpl; lia].
    simpl. exact Hq.
Qed.

(** The backlog of two jobs drained with every delivery succeeding. *)
Lemma drain_delivers_each_job_once_witness :
  let r := EmailService.run 4 Samples.always_succeeds 0
             (EmailService.processQueue Samples.backlog) in
  fst r = [Samples.low_job; Samples.urgent_job]
  /\ EmailService.emailQueue (snd r) = []
  /\ EmailService.isProcessing (snd r) = false
  /\ EmailService.worker (snd r) = EmailService.Idle.
Proof.
  apply (drain_delivers_each_job_once Samples.backlog
           Samples.always_succeeds); reflexivity.
Defined.

(** ** The batch reconciler *)

Lemma findById_replace_other i d db :
  i <> Email.id d ->
  Email.findById i (Email.replace d db) = Email.findById i db.
Proof.
  intros Hi. unfold Email.findById.
  induction db as [|x db IH]; simpl; [reflexivity|].
  destruct (Email.id x =? Email.id d) eqn:Hx; simpl.
  - apply Z.eqb_eq in Hx.
    assert (Hd : (Email.id d =? i) = false) by (apply Z.eqb_neq; congruence).
    assert (Hxi : (Email.id x =? i) = false)
      by (apply Z.eqb_neq; congruence).
    now rewrite Hd, Hxi.
  - destruct (Email.id x =? i); [reflexivity|exact IH].
Qed.

Lemma save_keeps_address fault now d db :
  Email.id (Lifecycle.doc (Email.save fault now d db)) = Email.id d
  /\ Email.to (Lifecycle.doc (Email.save fault now d db)) = Email.to d.
Proof.
  unfold Lifecycle.doc, Email.save, Email.pre_save.
  destruct fault, (Email.findById (Email.id d) db),
    (Email.isModified_status d db),
    (Email.status_eqb (Email.status d) Email.sent); simpl;
    match goal with
    | |- context [if ?c then _ else _] => destruct c
    | _ => idtac
    end; simpl; auto.
Qed.

(** The store content after a write that went through. *)
Lemma save_stored now d db stored :
  Email.findById (Email.id d) db = Some stored ->
  exists d',
    Email.save None now d db = (Ok tt, d', Email.replace d' db)
    /\ d' = Lifecycle.doc (Email.save None now d db)
    /\ Email.findById (Email.id d) (Email.replace d' db) = Some d'
    /\ (forall i, i <> Email.id d ->
                  Email.findById i (Email.replace d' db)
                  = Email.findById i db).
Proof.
  intros Hf.
  destruct (save_keeps_address None now d db) as [Hid _].
  set (d' := Lifecycle.doc (Email.save None now d db)) in *.
  assert (Hs : Email.save None now d db = (Ok tt, d', Email.replace d' db)).
  { unfold d', Lifecycle.doc, Email.save. rewrite Hf. reflexivity. }
  exists d'. split; [exact Hs|]. split; [reflexivity|]. split.
  - rewrite <- Hid. eapply findById_replace. rewrite Hid. exact Hf.
  - intros i Hi. apply findById_replace_other. now rewrite Hid.
Qed.

Lemma save_rejected msg now d db :
  Email.save (Some msg) now d db
  = (Throw (StoreError msg),
     Lifecycle.doc (Email.save (Some msg) now d db), db).
Proof. reflexivity. Qed.

Ltac save_cases d db :=
  unfold Lifecycle.doc, Email.markAsProcessing, Email.markAsSent,
    Email.markAsFailed, Email.save, Email.pre_save;
  match goal with
  | |- context [Email.isModified_status ?x db] =>
      destruct (Email.isModified_status x db)
  end;
  match goal with
  | |- context [Email.findById ?i db] => destruct (Email.findById i db)
  end;
  match goal with
  | |- context [match ?f with Some _ => _ | None => _ end] => destruct f
  | _ => idtac
  end;
  destruct d; simpl; repeat split; reflexivity.

Lemma markAsProcessing_doc fault now e db :
  let d := Lifecycle.doc (Email.markAsProcessing fault now e db) in
  Email.id d = Email.id e
  /\ Email.to d = Email.to e
  /\ Email.status d = Email.processing
  /\ Email.attempts d = Email.attempts e + 1
  /\ Email.maxAttempts d = Email.maxAttempts e
  /\ Email.processedAt d = Some now
  /\ Email.sentAt d = Email.sentAt e
  /\ Email.errorMessage d = Email.errorMessage e.
Proof. save_cases e db. Qed.

Lemma markAsSent_doc fault now e db :
  let d := Lifecycle.doc (Email.markAsSent fault now e db) in
  Email.id d = Email.id e
  /\ Email.to d = Email.to e
  /\ Email.status d = Email.sent
  /\ Email.attempts d = Email.attempts e
  /\ Email.maxAttempts d = Email.maxAttempts e
  /\ Email.processedAt d = Email.processedAt e
  /\ Email.sentAt d = Some now
  /\ Email.errorMessage d = Email.errorMessage e.
Proof. save_cases e db. Qed.

Lemma markAsFailed_doc fault now message e db :
  let d := Lifecycle.doc (Email.markAsFailed fault now message e db) in
  Email.id d = Email.id e
  /\ Email.to d = Email.to e
  /\ Email.status d = Email.failed
  /\ Email.attempts d = Email.attempts e
  /\ Email.maxAttempts d = Email.maxAttempts e
  /\ Email.processedAt d = Some now
  /\ Email.sentAt d = Email.sentAt e
  /\ Email.errorMessage d = Some message.
Proof. save_cases e db. Qed.

Lemma markAsProcessing_stored now e db stored :
  Email.findById (Email.id e) db = Some stored ->
  let d := Lifecycle.doc (Email.markAsProcessing None now e db) in
  Email.markAsProcessing None now e db = (Ok tt, d, Email.replace d db).
Proof.
  intros Hf. unfold Email.markAsProcessing.
  match goal with
  | |- context [Email.save None now ?x db] =>
      destruct (save_stored now x db stored) as (d' & Hs & _);
        [exact Hf|]
  end.
  rewrite Hs. reflexivity.
Qed.

Lemma markAsSent_stored now e db stored :
  Email.findById (Email.id e) db = Some stored ->
  let d := Lifecycle.doc (Email.markAsSent None now e db) in
  Email.markAsSent None now e db = (Ok tt, d, Email.replace d db).
Proof.
  intros Hf. unfold Email.markAsSent.
  match goal with
  | |- context [Email.save None now ?x db] =>
      destruct (save_stored now x db stored) as (d' & Hs & _);
        [exact Hf|]
  end.
  rewrite Hs. reflexivity.
Qed.

Lemma markAsFailed_stored now message e db stored :
  Email.findById (Email.id e) db = Some stored ->
  let d := Lifecycle.doc (Email.markAsFailed None now message e db) in
  Email.markAsFailed None now message e db
  = (Ok tt, d, Email.replace d db).
Proof.
  intros Hf. unfold Email.markAsFailed.
  match goal with
  | |- context [Email.save None now ?x db] =>
      destruct (save_stored now x db stored) as (d' & Hs & _);
        [exact Hf|]
  end.
  rewrite Hs. reflexivity.
Qed.

(** One e-mail of a batch when the store takes both writes: it is counted,
    reported by the outcome of its delivery, and its record is stored as
    sent with [sentAt], or as failed with the message of the simulation,
    with one attempt more; no other record changes. *)
Theorem process_email_when_store_answers
    (o : EmailController.Sim) (email stored : Email.t)
    (st : EmailService.State) :
  Email.findById (Email.id email) (EmailService.emails st) = Some stored ->
  EmailController.processing_fault o = None ->
  EmailController.outcome_fault o = None ->
  let r := EmailController.process_email o email st in
  snd (fst r) = true
  /\ fst (fst r)
     = EmailController.mkEntry (Email.id email)
         (if EmailController.delivered o then Email.sent else Email.failed)
         (Email.to email)
         (if EmailController.delivered o then None
          else Some "Simulated processing failure")
  /\ (exists e',
        Email.findById (Email.id email) (EmailService.emails (snd r))
        = Some e'
        /\ Email.status e'
           = (if EmailController.delivered o
              then Email.sent else Email.failed)
        /\ Email.attempts e' = Email.attempts email + 1
        /\ Email.sentAt e'
           = (if EmailController.delivered o
              then Some (EmailController.outcome_at o)
              else Email.sentAt email)
        /\ Email.errorMessage e'
           = (if EmailController.delivered o
              then Email.errorMessage email
              else Some "Simulated processing failure"))
  /\ (forall i, i <> Email.id email ->
                Email.findById i (EmailService.emails (snd r))
                = Email.findById i (EmailService.emails st))
  /\ EmailService.emailQueue (snd r) = EmailService.emailQueue st
  /\ EmailService.worker (snd r) = EmailService.worker st.
Proof.
  intros Hf Hp Ho r. subst r. unfold EmailController.process_email.
  rewrite Hp, Ho.
  rewrite (markAsProcessing_stored _ _ _ stored Hf).
  set (d1 := Lifecycle.doc
               (Email.markAsProcessing None
                  (EmailController.processing_at o) email
                  (EmailService.emails st))).
  destruct (markAsProcessing_doc None (EmailController.processing_at o)
              email (EmailService.emails st))
    as (Hid1 & Hto1 & Hst1 & Hat1 & _ & Hpa1 & Hsa1 & Her1).
  fold d1 in Hid1, Hto1, Hst1, Hat1, Hpa1, Hsa1, Her1.
  assert (Hf1 : Email.findById (Email.id d1)
                  (Email.replace d1 (EmailService.emails st)) = Some d1).
  { eapply findById_replace. rewrite Hid1. exact Hf. }
  cbv beta iota zeta.
  change (EmailService.emails
            (EmailService.set_emails
               (Email.replace d1 (EmailService.emails st)) st))
    with (Email.replace d1 (EmailService.emails st)).
  destruct (EmailController.delivered o).
  - rewrite (markAsSent_stored _ _ _ d1 Hf1).
    set (d2 := Lifecycle.doc
                 (Email.markAsSent None (EmailController.outcome_at o) d1
                    (Email.replace d1 (EmailService.emails st)))).
    destruct (markAsSent_doc None (EmailController.outcome_at o) d1
                (Email.replace d1 (EmailService.emails st)))
      as (Hid2 & Hto2 & Hst2 & Hat2 & _ & _ & Hsa2 & Her2).
    fold d2 in Hid2, Hto2, Hst2, Hat2, Hsa2, Her2.
    cbv beta iota zeta. cbn [fst snd].
    split; [reflexivity|]. split; [now rewrite Hid2, Hid1, Hto2, Hto1|].
    split.
    + exists d2. cbn [EmailService.emails EmailService.set_emails].
      split.
      * rewrite <- Hid1, <- Hid2. eapply findById_replace.
        rewrite Hid2. exact Hf1.
      * rewrite Hst2, Hat2, Hat1, Hsa2, Her2, Her1. auto.
    + cbn [EmailService.emails EmailService.set_emails
             EmailService.emailQueue EmailService.worker].
      split; [|split; reflexivity].
      intros i Hi.
      rewrite findById_replace_other by (now rewrite Hid2, Hid1).
      apply findById_replace_other. now rewrite Hid1.
  - rewrite (markAsFailed_stored _ _ _ _ d1 Hf1).
    set (d2 := Lifecycle.doc
                 (Email.markAsFailed None (EmailController.outcome_at o)
                    "Simulated processing failure" d1
                    (Email.replace d1 (EmailService.emails st)))).
    destruct (markAsFailed_doc None (EmailController.outcome_at o)
                "Simulated processing failure" d1
                (Email.replace d1 (EmailService.emails st)))
      as (Hid2 & Hto2 & Hst2 & Hat2 & _ & _ & Hsa2 & Her2).
    fold d2 in Hid2, Hto2, Hst2, Hat2, Hsa2, Her2.
    cbv beta iota zeta. cbn [fst snd].
    split; [reflexivity|]. split; [now rewrite Hid2, Hid1, Hto2, Hto1|].
    split.
    + exists d2. cbn [EmailService.emails EmailService.set_emails].
      split.
      * rewrite <- Hid1, <- Hid2. eapply findById_replace.
        rewrite Hid2. exact Hf1.
      * rewrite Hst2, Hat2, Hat1, Hsa2, Hsa1, Her2. auto.
    + cbn [EmailService.emails EmailService.set_emails
             EmailService.emailQueue EmailService.worker].
      split; [|split; reflexivity].
      intros i Hi.
      rewrite findById_replace_other by (now rewrite Hid2, Hid1).
      apply findById_replace_other. now rewrite Hid1.
Qed.

Lemma markAsProcessing_rejected msg now e db :
  Email.markAsProcessing (Some msg) now e db
  = (Throw (StoreError msg),
     Lifecycle.doc (Email.markAsProcessing (Some msg) now e db), db).
Proof. reflexivity. Qed.

Lemma markAsFailed_rejected msg now message e db :
  Email.markAsFailed (Some msg) now message e db
  = (Throw (StoreError msg),
     Lifecycle.doc (Email.markAsFailed (Some msg) now message e db), db).
Proof. reflexivity. Qed.

(** One e-mail of a batch when the store rejects the write that marks it as
    processing: no delivery is simulated, the e-mail is reported as failed
    with the store's message and is not counted.  If the write of the
    [catch] block goes through, the record is stored as failed with that
    message and with one attempt more; if it is rejected too, the ledger is
    as before and the second rejection is logged. *)
Theorem process_email_when_marking_is_rejected
    (o : EmailController.Sim) (email stored : Email.t)
    (st : EmailService.State) (msg : string) :
  Email.findById (Email.id email) (EmailService.emails st) = Some stored ->
  EmailController.processing_fault o = Some msg ->
  let r := EmailController.process_email o email st in
  snd (fst r) = false
  /\ fst (fst r)
     = EmailController.mkEntry (Email.id email) Email.failed
         (Email.to email) (Some msg)
  /\ match EmailController.fallback_fault o with
     | None =>
         exists e',
           Email.findById (Email.id email) (EmailService.emails (snd r))
           = Some e'
           /\ Email.status e' = Email.failed
           /\ Email.errorMessage e' = Some msg
           /\ Email.attempts e' = Email.attempts email + 1
     | Some _ =>
         EmailService.emails (snd r) = EmailService.emails st
         /\ In (ERROR, "Error marking email as failed:")
               (EmailService.logs (snd r))
     end.
Proof.
  intros Hf Hp r. subst r. unfold EmailController.process_email.
  rewrite Hp, markAsProcessing_rejected.
  set (d1 := Lifecycle.doc
               (Email.markAsProcessing (Some msg)
                  (EmailController.processing_at o) email
                  (EmailService.emails st))).
  destruct (markAsProcessing_doc (Some msg)
              (EmailController.processing_at o) email
              (EmailService.emails st))
    as (Hid1 & Hto1 & _ & Hat1 & _).
  fold d1 in Hid1, Hto1, Hat1.
  cbv beta iota zeta. cbn [message_of].
  unfold EmailController.on_error.
  assert (Hf1 : Email.findById (Email.id d1) (EmailService.emails st)
                = Some stored) by (now rewrite Hid1).
  destruct (EmailController.fallback_fault o) as [msg2|].
  - rewrite markAsFailed_rejected.
    set (d2 := Lifecycle.doc
                 (Email.markAsFailed (Some msg2)
                    (EmailController.fallback_at o) msg d1
                    (EmailService.emails st))).
    destruct (markAsFailed_doc (Some msg2) (EmailController.fallback_at o)
                msg d1 (EmailService.emails st)) as (Hid2 & Hto2 & _).
    fold d2 in Hid2, Hto2.
    cbv beta iota zeta. cbn [fst snd].
    split; [reflexivity|]. split; [now rewrite Hid2, Hid1, Hto2, Hto1|].
    split.
    + destruct st; reflexivity.
    + simpl. apply in_or_app. right. now left.
  - rewrite (markAsFailed_stored _ _ _ _ stored Hf1).
    set (d2 := Lifecycle.doc
                 (Email.markAsFailed None (EmailController.fallback_at o)
                    msg d1 (EmailService.emails st))).
    destruct (markAsFailed_doc None (EmailController.fallback_at o)
                msg d1 (EmailService.emails st))
      as (Hid2 & Hto2 & Hst2 & Hat2 & _ & _ & _ & Her2).
    fold d2 in Hid2, Hto2, Hst2, Hat2, Her2.
    cbv beta iota zeta. cbn [fst snd].
    split; [reflexivity|]. split; [now rewrite Hid2, Hid1, Hto2, Hto1|].
    exists d2. cbn [EmailService.emails EmailService.set_emails].
    split.
    + rewrite <- Hid1, <- Hid2. eapply findById_replace.
      rewrite Hid2. exact Hf1.
    + rewrite Hst2, Hat2, Hat1, Her2. auto.
Qed.

(** The low record of the ledger processed while the store is down for the
    first write only. *)
Lemma process_email_when_marking_is_rejected_witness :
  let email := Samples.ledger_record 2 Email.pending Email.low 20 0 20 in
  let o := EmailController.mkSim 3000 (Some "down") true 3001 None
             3002 None in
  let r := EmailController.process_email o email
             (EmailService.set_emails Samples.high_and_low Samples.idle) in
  snd (fst r) = false
  /\ fst (fst r)
     = EmailController.mkEntry 2 Email.failed "alice@x.com" (Some "down")
  /\ exists e',
       Email.findById 2 (EmailService.emails (snd r)) = Some e'
       /\ Email.status e' = Email.failed
       /\ Email.errorMessage e' = Some "down"
       /\ Email.attempts e' = 0 + 1.
Proof.
  intros email o.
  apply (process_email_when_marking_is_rejected o email email
           (EmailService.set_emails Samples.high_and_low Samples.idle)
           "down"); reflexivity.
Defined.

(** The same record processed while the store answers and the delivery
    succeeds. *)
Lemma process_email_when_store_answers_witness :
  let email := Samples.ledger_record 2 Email.pending Email.low 20 0 20 in
  let o := EmailController.mkSim 3000 None true 3001 None 3002 None in
  let st := EmailService.set_emails Samples.high_and_low Samples.idle in
  let r := EmailController.process_email o email st in
  snd (fst r) = true
  /\ fst (fst r) = EmailController.mkEntry 2 Email.sent "alice@x.com" None
  /\ (exists e',
        Email.findById 2 (EmailService.emails (snd r)) = Some e'
        /\ Email.status e' = Email.sent
        /\ Email.attempts e' = 0 + 1
        /\ Email.sentAt e' = Some 3001
        /\ Email.errorMessage e' = None)
  /\ (forall i, i <> 2 ->
                Email.findById i (EmailService.emails (snd r))
                = Email.findById i (EmailService.emails st))
  /\ EmailService.emailQueue (snd r) = EmailService.emailQueue st
  /\ EmailService.worker (snd r) = EmailService.worker st.
Proof.
  intros email o st.
  apply (process_email_when_store_answers o email email st); reflexivity.
Defined.

Lemma on_error_entry o message email st :
  let r := EmailController.on_error o message email st in
  EmailController.emailId (fst r) = Email.id email
  /\ EmailController.recipient (fst r) = Email.to email
  /\ EmailService.emailQueue (snd r) = EmailService.emailQueue st
  /\ EmailService.isProcessing (snd r) = EmailService.isProcessing st
  /\ EmailService.worker (snd r) = EmailService.worker st.
Proof.
  unfold EmailController.on_error.
  destruct (markAsFailed_doc (EmailController.fallback_fault o)
              (EmailController.fallback_at o) message email
              (EmailService.emails st)) as (Hid & Hto & _).
  destruct (Email.markAsFailed _ _ message email _) as [[res e'] db'].
  unfold Lifecycle.doc in Hid, Hto. simpl in Hid, Hto.
  destruct res; simpl; auto.
Qed.

Lemma process_email_entry o email st :
  let r := EmailController.process_email o email st in
  EmailController.emailId (fst (fst r)) = Email.id email
  /\ EmailController.recipient (fst (fst r)) = Email.to email
  /\ EmailService.emailQueue (snd r) = EmailService.emailQueue st
  /\ EmailService.isProcessing (snd r) = EmailService.isProcessing st
  /\ EmailService.worker (snd r) = EmailService.worker st
  /\ (EmailController.processing_fault o = None ->
      EmailController.outcome_fault o = None ->
      snd (fst r) = true).
Proof.
  unfold EmailController.process_email.
  destruct (markAsProcessing_doc (EmailController.processing_fault o)
              (EmailController.processing_at o) email
              (EmailService.emails st)) as (Hid1 & Hto1 & _).
  assert (Hr1 : EmailController.processing_fault o = None ->
                fst (fst (Email.markAsProcessing
                            (EmailController.processing_fault o)
                            (EmailController.processing_at o) email
                            (EmailService.emails st))) = Ok tt).
  { intros ->. unfold Email.markAsProcessing, Email.save.
    now destruct (Email.findById _ _). }
  destruct (Email.markAsProcessing _ _ email _) as [[res1 e1] db1].
  unfold Lifecycle.doc in Hid1, Hto1. simpl in Hid1, Hto1, Hr1.
  destruct res1 as [[]|error1].
  - cbv beta iota zeta.
    set (st1 := EmailService.set_emails db1 st).
    destruct (EmailController.delivered o).
    + destruct (markAsSent_doc (EmailController.outcome_fault o)
                  (EmailController.outcome_at o) e1
                  (EmailService.emails st1)) as (Hid2 & Hto2 & _).
      assert (Hr2 : EmailController.outcome_fault o = None ->
                    fst (fst (Email.markAsSent
                                (EmailController.outcome_fault o)
                                (EmailController.outcome_at o) e1
                                (EmailService.emails st1))) = Ok tt).
      { intros ->. unfold Email.markAsSent, Email.save.
        now destruct (Email.findById _ _). }
      destruct (Email.markAsSent _ _ e1 _) as [[res2 e2] db2].
      unfold Lifecycle.doc in Hid2, Hto2. simpl in Hid2, Hto2, Hr2.
      destruct res2 as [[]|error2].
      * simpl. repeat split; congruence.
      * destruct (on_error_entry o (message_of error2) e2 st1)
          as (Hid3 & Hto3 & Hq3 & Hp3 & Hw3).
        destruct (EmailController.on_error o (message_of error2) e2 st1)
          as [entry st3].
        simpl in *. repeat split; try congruence.
        intros _ Hnone. specialize (Hr2 Hnone). discriminate.
    + destruct (markAsFailed_doc (EmailController.outcome_fault o)
                  (EmailController.outcome_at o)
                  "Simulated processing failure" e1
                  (EmailService.emails st1)) as (Hid2 & Hto2 & _).
      assert (Hr2 : EmailController.outcome_fault o = None ->
                    fst (fst (Email.markAsFailed
                                (EmailController.outcome_fault o)
                                (EmailController.outcome_at o)
                                "Simulated processing failure" e1
                                (EmailService.emails st1))) = Ok tt).
      { intros ->. unfold Email.markAsFailed, Email.save.
        now destruct (Email.findById _ _). }
      destruct (Email.markAsFailed _ _ _ e1 _) as [[res2 e2] db2].
      unfold Lifecycle.doc in Hid2, Hto2. simpl in Hid2, Hto2, Hr2.
      destruct res2 as [[]|error2].
      * simpl. repeat split; congruence.
      * destruct (on_error_entry o (message_of error2) e2 st1)
          as (Hid3 & Hto3 & Hq3 & Hp3 & Hw3).
        destruct (EmailController.on_error o (message_of error2) e2 st1)
          as [entry st3].
        simpl in *. repeat split; try congruence.
        intros _ Hnone. specialize (Hr2 Hnone). discriminate.
  - destruct (on_error_entry o (message_of error1) e1 st)
      as (Hid3 & Hto3 & Hq3 & Hp3 & Hw3).
    destruct (EmailController.on_error o (message_of error1) e1 st)
      as [entry st3].
    simpl in *. repeat split; try congruence.
    intros Hnone _. specialize (Hr1 Hnone). discriminate.
Qed.

Lemma process_all_entries pendingEmails :
  forall oracle k st,
    let r := EmailController.process_all oracle k pendingEmails st in
    map EmailController.emailId (snd (fst r)) = map Email.id pendingEmails
    /\ map EmailController.recipient (snd (fst r))
       = map Email.to pendingEmails
    /\ (fst (fst r) <= List.length pendingEmails)%nat
    /\ ((forall i, EmailController.processing_fault (oracle i) = None
                   /\ EmailController.outcome_fault (oracle i) = None) ->
        fst (fst r) = List.length pendingEmails)
    /\ EmailService.emailQueue (snd r) = EmailService.emailQueue st
    /\ EmailService.isProcessing (snd r) = EmailService.isProcessing st
    /\ EmailService.worker (snd r) = EmailService.worker st.
Proof.
  induction pendingEmails as [|email rest IH]; intros oracle k st.
  - simpl. repeat split; auto.
  - cbn [EmailController.process_all].
    destruct (process_email_entry (oracle k) email st)
      as (Hid & Hto & Hq & Hp & Hw & Hc).
    destruct (EmailController.process_email (oracle k) email st)
      as [[entry counted] st1].
    specialize (IH oracle (S k) st1).
    destruct (EmailController.process_all oracle (S k) rest st1)
      as [[processedCount results] st2].
    simpl in *. destruct IH as (IH1 & IH2 & IH3 & IH4 & IH5 & IH6 & IH7).
    repeat split; try congruence.
    + destruct counted; lia.
    + intros Hnone. rewrite (IH4 Hnone).
      destruct (Hnone k) as [H1 H2]. now rewrite (Hc H1 H2).
Qed.

(** A run of the batch reconciler with a batch size of at least one, the
    query answered.  With no pending record due it answers 'No pending
    emails to process' and changes nothing.  Otherwise it reports one entry
    for each selected record, in the order of the query, however the writes
    went; it counts no more than it reports and no more than the batch size,
    and counts all when no write of a status is rejected.  The queue, the
    flag and the worker are never touched. *)
Theorem simulateEmailProcessing_reports_the_batch
    (batchSize : nat) (now : Z) (oracle : nat -> EmailController.Sim)
    (st : EmailService.State) :
  (1 <= batchSize)%nat ->
  let selected :=
    Email.getPendingEmails now batchSize (EmailService.emails st) in
  let r := EmailController.simulateEmailProcessing batchSize now None
             oracle st in
  EmailService.emailQueue (snd r) = EmailService.emailQueue st
  /\ EmailService.isProcessing (snd r) = EmailService.isProcessing st
  /\ EmailService.worker (snd r) = EmailService.worker st
  /\ match selected with
     | [] => r = (Ok EmailController.NoPending, st)
     | _ =>
         exists processedCount results,
           fst r = Ok (EmailController.Completed processedCount results
                         batchSize)
           /\ map EmailController.emailId results = map Email.id selected
           /\ map EmailController.recipient results
              = map Email.to selected
           /\ (processedCount <= List.length results <= batchSize)%nat
           /\ ((forall i,
                  EmailController.processing_fault (oracle i) = None
                  /\ EmailController.outcome_fault (oracle i) = None) ->
               processedCount = List.length results)
     end.
Proof.
  intros Hn selected r. subst r.
  unfold EmailController.simulateEmailProcessing. fold selected.
  assert (Hlen : (List.length selected <= batchSize)%nat).
  { unfold selected, Email.getPendingEmails, Email.limit.
    destruct batchSize; [lia|]. apply firstn_le_length. }
  destruct selected as [|email rest] eqn:Hsel; [simpl; auto|].
  destruct (process_all_entries (email :: rest) oracle O st)
    as (H1 & H2 & H3 & H4 & H5 & H6 & H7).
  destruct (EmailController.process_all oracle 0 (email :: rest) st)
    as [[processedCount results] st'].
  cbn [fst snd] in *.
  split; [exact H5|]. split; [exact H6|]. split; [exact H7|].
  exists processedCount, results.
  assert (Hl : List.length results = List.length (email :: rest)).
  { rewrite <- (length_map EmailController.emailId results), H1.
    apply length_map. }
  split; [reflexivity|]. split; [exact H1|]. split; [exact H2|].
  split; [lia|]. intros Hnone. rewrite Hl. now apply H4.
Qed.

(** The reconciler run on the scenario of the specification, every
    delivery failing. *)
Lemma simulateEmailProcessing_reports_the_batch_witness :
  let st := EmailService.set_emails Samples.urgent_low_normal Samples.idle in
  let r := EmailController.simulateEmailProcessing 2 100 None
             Samples.failing_batch st in
  EmailService.emailQueue (snd r) = []
  /\ EmailService.isProcessing (snd r) = false
  /\ EmailService.worker (snd r) = EmailService.Idle
  /\ exists processedCount results,
       fst r = Ok (EmailController.Completed processedCount results 2)
       /\ map EmailController.emailId results = [1; 3]
       /\ map EmailController.recipient results
          = ["alice@x.com"; "alice@x.com"]
       /\ (processedCount <= List.length results <= 2)%nat
       /\ ((forall i,
              EmailController.processing_fault (Samples.failing_batch i)
              = None
              /\ EmailController.outcome_fault (Samples.failing_batch i)
                 = None) ->
           processedCount = List.length results).
Proof.
  intros st.
  apply (simulateEmailProcessing_reports_the_batch 2 100
           Samples.failing_batch st).
  lia.
Defined.

(** ** Invariants of the dispatcher *)

Section DispatcherInvariants.

Import EmailService.

(** The shape the five producers share after [addToQueue]. *)
Lemma tracked fault now email st (queued failed_ : string) :
  let r :=
    match Email.save fault now email (emails st) with
    | (Ok _, _, db) => (Ok tt, log INFO queued (set_emails db st))
    | (Throw _, _, _) => (Ok tt, log ERROR failed_ st)
    end in
  fst r = Ok tt
  /\ emailQueue (snd r) = emailQueue st
  /\ isProcessing (snd r) = isProcessing st
  /\ worker (snd r) = worker st
  /\ emails (snd r)
     = match fault with
       | Some _ => emails st
       | None => snd (Email.save None now email (emails st))
       end.
Proof.
  unfold Email.save.
  destruct fault, (Email.findById (Email.id email) (emails st));
    simpl; auto.
Qed.

End DispatcherInvariants.

Lemma producer_step ev emailData now random oid fault st :
  Dispatcher.produced ev = Some (emailData, now, random, oid, fault) ->
  let queued := EmailService.addToQueue emailData now random st in
  let st' := Dispatcher.step ev st in
  EmailService.emailQueue st' = EmailService.emailQueue queued
  /\ EmailService.isProcessing st' = EmailService.isProcessing queued
  /\ EmailService.worker st' = EmailService.worker queued
  /\ EmailService.emails st'
     = match fault with
       | Some _ => EmailService.emails st
       | None =>
           snd (Email.save None now
                  (EmailService.newEmail oid now emailData)
                  (EmailService.emails st))
       end.
Proof.
  intros Hp queued st'. subst queued st'.
  destruct ev; simpl in Hp; try discriminate;
    injection Hp as Hd Hn Hr Ho Hf; subst;
    cbn [Dispatcher.step];
    (epose proof (tracked _ _ _ _ _ _) as H; cbv zeta in H;
     destruct H as (_ & Hq & Hf' & Hw & He);
     split; [exact Hq | split; [exact Hf' | split; [exact Hw|]]];
     etransitivity; [exact He|];
     rewrite addToQueue_emails; reflexivity).
Qed.

Section QueueInvariant.

Import EmailService.

(** A property of the queue, the flag and the worker that the five
    operations on them keep is kept by every event. *)
Variable P : State -> Prop.

Hypothesis P_ext :
  forall s1 s2,
    emailQueue s2 = emailQueue s1 ->
    isProcessing s2 = isProcessing s1 ->
    worker s2 = worker s1 ->
    P s1 -> P s2.
Hypothesis P_addToQueue :
  forall d n r st, P st -> P (addToQueue d n r st).
Hypothesis P_processQueue : forall st, P st -> P (processQueue st).
Hypothesis P_settle : forall ok n st, P st -> P (settle ok n st).
Hypothesis P_delay_elapsed : forall st, P st -> P (delay_elapsed st).
Hypothesis P_clearQueue : forall st, P st -> P (snd (clearQueue st)).

Lemma step_keeps ev st : P st -> P (Dispatcher.step ev st).
Proof.
  intros HP.
  destruct (Dispatcher.produced ev) as [[[[[d n] r] oid] fault]|] eqn:Hprod.
  - destruct (producer_step ev d n r oid fault st Hprod)
      as (Hq & Hf & Hw & _).
    apply (P_ext (addToQueue d n r st)); auto.
  - destruct ev; try discriminate; cbn [Dispatcher.step]; auto.
    + (* retryFailedEmail *)
      unfold retryFailedEmail.
      destruct lookup;
        [apply (P_ext st); auto|].
      destruct (Email.findById emailId (emails st)) as [email|];
        [|apply (P_ext st); auto].
      destruct (Email.canRetry email); simpl;
        [|apply (P_ext st); auto].
      destruct (Email.retry fault now email (emails st))
        as [[[[]|error] email'] db]; [|apply (P_ext st); auto].
      match goal with
      | |- P (snd (_, log _ _ ?s)) => apply (P_ext s); auto
      end.
      apply P_addToQueue. apply (P_ext st); auto.
    + (* getFailedEmails *)
      unfold getFailedEmails. destruct fault; simpl; auto.
      apply (P_ext st); auto.
    + (* simulateEmailProcessing *)
      unfold EmailController.simulateEmailProcessing.
      destruct query; [exact HP|].
      destruct (Email.getPendingEmails now batchSize (emails st))
        as [|email rest]; [exact HP|].
      destruct (process_all_entries (email :: rest) oracle O st)
        as (_ & _ & _ & _ & Hq & Hf & Hw).
      destruct (EmailController.process_all oracle 0 (email :: rest) st)
        as [[processedCount results] st'].
      apply (P_ext st); auto.
    + (* cleanOldEmails *)
      apply (P_ext st); auto.
Qed.

Lemma reachable_keeps ledger st :
  P (mkState [] false Idle ledger []) ->
  Dispatcher.reachable ledger st -> P st.
Proof.
  intros H0; induction 1 as [|ev st Hr IH]; [exact H0|].
  now apply step_keeps.
Qed.

End QueueInvariant.

Section Coherence.

Import EmailService.

Lemma loop_coherent st :
  isProcessing st = true -> Dispatcher.coherent (loop st).
Proof.
  destruct st as [q flag w db lg]. simpl. intros ->.
  unfold Dispatcher.coherent, loop; simpl.
  destruct q; simpl; split; try split; try discriminate; auto.
Qed.

Lemma processQueue_coherent st :
  Dispatcher.coherent st -> Dispatcher.coherent (processQueue st).
Proof.
  intros Hc. unfold processQueue.
  destruct (isProcessing st || _); [exact Hc|].
  now apply loop_coherent.
Qed.

Lemma addToQueue_coherent d n r st :
  Dispatcher.coherent st -> Dispatcher.coherent (addToQueue d n r st).
Proof.
  intros [Hflag Hidle]. unfold addToQueue. cbn [isProcessing log set_emailQueue].
  destruct (isProcessing st) eqn:Hp; cbn [negb].
  - split; cbn [isProcessing worker emailQueue log set_emailQueue].
    + rewrite Hp. exact Hflag.
    + intros Hw. exfalso. now apply Hflag.
  - unfold processQueue.
    cbn [isProcessing emailQueue log set_emailQueue]. rewrite Hp.
    destruct (emailQueue st); now apply loop_coherent.
Qed.

Lemma settle_coherent ok n st :
  Dispatcher.coherent st -> Dispatcher.coherent (settle ok n st).
Proof.
  intros [Hflag Hidle].
  destruct (worker st) as [|j|] eqn:Hw;
    try (unfold settle, Dispatcher.coherent; rewrite !Hw; now split).
  assert (Hp : isProcessing st = true)
    by (apply Hflag; discriminate).
  destruct ok.
  - rewrite (settle_success _ _ _ Hw).
    split; cbn [isProcessing worker emailQueue log set_worker].
    + rewrite Hp. split; [discriminate|reflexivity].
    + discriminate.
  - rewrite (settle_failure _ _ _ Hw). apply loop_coherent.
    unfold after_failure. now destruct (attempts j <? maxAttempts j).
Qed.

Lemma delay_elapsed_coherent st :
  Dispatcher.coherent st -> Dispatcher.coherent (delay_elapsed st).
Proof.
  intros [Hflag Hidle]. unfold delay_elapsed.
  destruct (worker st) eqn:Hw;
    try (unfold Dispatcher.coherent; rewrite !Hw; now split).
  apply loop_coherent. apply Hflag. discriminate.
Qed.

Lemma coherent_ext s1 s2 :
  emailQueue s2 = emailQueue s1 ->
  isProcessing s2 = isProcessing s1 ->
  worker s2 = worker s1 ->
  Dispatcher.coherent s1 -> Dispatcher.coherent s2.
Proof. unfold Dispatcher.coherent. now intros -> -> ->. Qed.

End Coherence.

Lemma dispatcher_coherent_aux ledger st :
  Dispatcher.reachable ledger st -> Dispatcher.coherent st.
Proof.
  intros Hr.
  apply (reachable_keeps Dispatcher.coherent) with (ledger := ledger); auto.
  - intros s1 s2 Hq Hf Hw. now apply coherent_ext.
  - intros; now apply addToQueue_coherent.
  - intros; now apply processQueue_coherent.
  - intros; now apply settle_coherent.
  - intros; now apply delay_elapsed_coherent.
  - intros s [Hflag Hidle]. split; simpl; auto.
  - split; simpl; [split; [discriminate|]|reflexivity].
    intros H. now contradiction H.
Qed.

(** In every state the dispatcher reaches from its start, whatever the
    ledger holds and whatever callers, deliveries and the store do, the
    flag [isProcessing] is up exactly while a drain loop is live, and an
    idle dispatcher has an empty queue: no job waits without a loop to take
    it, and a second loop is never started beside a live one. *)
Theorem dispatcher_stays_coherent
    (ledger : Email.Collection) (st : EmailService.State) :
  Dispatcher.reachable ledger st ->
  Dispatcher.coherent st
  /\ (EmailService.isProcessing st = true ->
      EmailService.processQueue st = st).
Proof.
  intros Hr. split.
  - now apply dispatcher_coherent_aux with (ledger := ledger).
  - intros Hp. unfold EmailService.processQueue. now rewrite Hp.
Qed.

(** The state after two enqueues and the failure of the first delivery. *)
Lemma dispatcher_stays_coherent_witness :
  let st :=
    Dispatcher.step (Dispatcher.Settle false 1500)
      (Dispatcher.step (Dispatcher.AddToQueue Samples.welcome_data 1100 6)
         (Dispatcher.step
            (Dispatcher.AddToQueue Samples.welcome_data 1000 5)
            (EmailService.mkState [] false EmailService.Idle [] []))) in
  Dispatcher.coherent st
  /\ (EmailService.isProcessing st = true ->
      EmailService.processQueue st = st).
Proof.
  intros st.
  apply (dispatcher_stays_coherent [] st).
  unfold st. do 3 apply Dispatcher.reach_step. apply Dispatcher.reach_start.
Defined.

Section Budget.

Import EmailService.

Lemma jobs_queue st j :
  In j (emailQueue st) -> In j (Dispatcher.jobs st).
Proof.
  unfold Dispatcher.jobs. destruct (worker st); simpl; auto.
Qed.

Lemma jobs_loop st : Dispatcher.jobs (loop st) = emailQueue st.
Proof.
  destruct st as [q flag w db lg]. unfold Dispatcher.jobs, loop; simpl.
  now destruct q.
Qed.

Lemma loop_budgeted st :
  (forall j, In j (emailQueue st) -> Dispatcher.budgeted j) ->
  Dispatcher.all_budgeted (loop st).
Proof.
  intros H j Hj. rewrite jobs_loop in Hj. auto.
Qed.

Lemma processQueue_budgeted st :
  Dispatcher.all_budgeted st -> Dispatcher.all_budgeted (processQueue st).
Proof.
  intros H. unfold processQueue.
  destruct (isProcessing st || _); [exact H|].
  apply loop_budgeted. intros j Hj. apply H. now apply jobs_queue.
Qed.

Lemma newJob_budgeted d n r : Dispatcher.budgeted (newJob d n r).
Proof. unfold Dispatcher.budgeted; simpl. lia. Qed.

Lemma addToQueue_budgeted d n r st :
  Dispatcher.all_budgeted st ->
  Dispatcher.all_budgeted (addToQueue d n r st).
Proof.
  intros H. unfold addToQueue.
  set (st1 := log INFO "Email queued"
                (set_emailQueue (emailQueue st ++ [newJob d n r]) st)).
  assert (H1 : Dispatcher.all_budgeted st1).
  { intros j Hj. unfold Dispatcher.jobs, st1 in Hj.
    cbn [worker emailQueue log set_emailQueue] in Hj.
    assert (Hin : In j (Dispatcher.jobs st) \/ j = newJob d n r).
    { unfold Dispatcher.jobs.
      destruct (worker st); simpl in Hj |- *;
        rewrite ?in_app_iff in Hj; simpl in Hj; intuition congruence. }
    destruct Hin as [Hin| ->]; [now apply H|apply newJob_budgeted]. }
  destruct (negb (isProcessing st1)); [|exact H1].
  now apply processQueue_budgeted.
Qed.

Lemma settle_budgeted ok n st :
  Dispatcher.all_budgeted st -> Dispatcher.all_budgeted (settle ok n st).
Proof.
  intros H. destruct (worker st) as [|j|] eqn:Hw;
    try (unfold settle; rewrite Hw; exact H).
  assert (Hj : Dispatcher.budgeted j).
  { apply H. unfold Dispatcher.jobs. rewrite Hw. now left. }
  assert (Hq : forall x, In x (emailQueue st) -> Dispatcher.budgeted x)
    by (intros x Hx; apply H; now apply jobs_queue).
  destruct ok.
  - rewrite (settle_success _ _ _ Hw). intros x Hx.
    unfold Dispatcher.jobs in Hx. simpl in Hx. auto.
  - rewrite (settle_failure _ _ _ Hw). apply loop_budgeted.
    intros x Hx. rewrite after_failure_queue in Hx.
    destruct (attempts j <? maxAttempts j) eqn:Hlt; [|auto].
    apply in_app_or in Hx. destruct Hx as [Hx|[<-|[]]]; [auto|].
    apply Z.ltb_lt in Hlt. destruct Hj as [Hmax Hat].
    unfold Dispatcher.budgeted.
    change (maxAttempts (requeued n j)) with (maxAttempts j).
    change (attempts (requeued n j)) with (attempts j + 1).
    lia.
Qed.

Lemma delay_elapsed_budgeted st :
  Dispatcher.all_budgeted st -> Dispatcher.all_budgeted (delay_elapsed st).
Proof.
  intros H. unfold delay_elapsed. destruct (worker st); try exact H.
  apply loop_budgeted. intros j Hj. apply H. now apply jobs_queue.
Qed.

Lemma budgeted_ext s1 s2 :
  emailQueue s2 = emailQueue s1 ->
  isProcessing s2 = isProcessing s1 ->
  worker s2 = worker s1 ->
  Dispatcher.all_budgeted s1 -> Dispatcher.all_budgeted s2.
Proof.
  unfold Dispatcher.all_budgeted, Dispatcher.jobs. now intros -> _ ->.
Qed.

End Budget.

(** In every state the dispatcher reaches from its start, every job it
    holds, waiting or in flight, has [maxAttempts] 3 and between 0 and 3
    attempts: an in-memory job never counts past its budget, whatever was
    submitted and however its deliveries went. *)
Theorem dispatcher_jobs_stay_budgeted
    (ledger : Email.Collection) (st : EmailService.State)
    (j : EmailService.Job) :
  Dispatcher.reachable ledger st ->
  In j (Dispatcher.jobs st) ->
  EmailService.maxAttempts j = 3
  /\ 0 <= EmailService.attempts j <= 3.
Proof.
  intros Hr. revert j.
  apply (reachable_keeps Dispatcher.all_budgeted) with (ledger := ledger);
    auto.
  - intros s1 s2 Hq Hf Hw. now apply budgeted_ext.
  - intros; now apply addToQueue_budgeted.
  - intros; now apply processQueue_budgeted.
  - intros; now apply settle_budgeted.
  - intros; now apply delay_elapsed_budgeted.
  - intros s H x Hx. apply H. unfold Dispatcher.jobs in *. simpl in Hx.
    destruct (EmailService.worker s); simpl in *; tauto.
  - intros x [].
Qed.

(** The job in flight after two enqueues and the failure of the first
    delivery. *)
Lemma dispatcher_jobs_stay_budgeted_witness :
  let st :=
    Dispatcher.step (Dispatcher.Settle false 1500)
      (Dispatcher.step (Dispatcher.AddToQueue Samples.welcome_data 1100 6)
         (Dispatcher.step
            (Dispatcher.AddToQueue Samples.welcome_data 1000 5)
            (EmailService.mkState [] false EmailService.Idle [] []))) in
  let j := EmailService.newJob Samples.welcome_data 1100 6 in
  EmailService.maxAttempts j = 3 /\ 0 <= EmailService.attempts j <= 3.
Proof.
  intros st j.
  apply (dispatcher_jobs_stay_budgeted [] st j).
  - unfold st. do 3 apply Dispatcher.reach_step.
    apply Dispatcher.reach_start.
  - left. reflexivity.
Defined.

Section LedgerBudget.

Import EmailService.

Lemma Forall_replace (P : Email.t -> Prop) d db :
  P d -> Forall P db -> Forall P (Email.replace d db).
Proof.
  intros Hd. induction 1 as [|x db Hx Hdb IH]; simpl; [constructor|].
  destruct (Email.id x =? Email.id d); constructor; auto.
Qed.

Lemma save_keeps_ledger (P : Email.t -> Prop) fault now d db :
  P (Lifecycle.doc (Email.save fault now d db)) ->
  Forall P db ->
  Forall P (snd (Email.save fault now d db)).
Proof.
  unfold Lifecycle.doc, Email.save.
  destruct fault, (Email.findById (Email.id d) db); simpl; auto.
  - intros Hd Hdb. now apply Forall_replace.
  - intros Hd Hdb. apply Forall_app. split; [exact Hdb|now constructor].
Qed.

(** What a document needs for [markAsProcessing] to keep it in budget, and
    what the documents in the middle of a reconciliation satisfy. *)
Lemma ready_within_budget e :
  Email.attempts e <= Email.maxAttempts e ->
  Email.status e <> Email.pending ->
  Lifecycle.within_budget e.
Proof. intros Hle Hs. split; [exact Hle|]. intros H. now contradiction Hs. Qed.

Lemma on_error_ledger o message email st :
  Email.attempts email <= Email.maxAttempts email ->
  Forall Lifecycle.within_budget (emails st) ->
  Forall Lifecycle.within_budget
         (emails (snd (EmailController.on_error o message email st))).
Proof.
  intros Hle Hdb. unfold EmailController.on_error.
  pose proof (save_keeps_ledger Lifecycle.within_budget
                (EmailController.fallback_fault o)
                (EmailController.fallback_at o)) as Hsave.
  destruct (markAsFailed_doc (EmailController.fallback_fault o)
              (EmailController.fallback_at o) message email (emails st))
    as (_ & _ & Hs & Ha & Hm & _).
  unfold Email.markAsFailed in *.
  match goal with
  | |- context [Email.save _ _ ?d (emails st)] =>
      specialize (Hsave d (emails st))
  end.
  destruct (Email.save _ _ _ (emails st)) as [[res e'] db'].
  unfold Lifecycle.doc in *. simpl in *.
  assert (Hdb' : Forall Lifecycle.within_budget db').
  { apply Hsave; [|exact Hdb].
    apply ready_within_budget; [lia|congruence]. }
  destruct res; simpl; exact Hdb'.
Qed.

Lemma process_email_ledger o email st :
  Email.attempts email < Email.maxAttempts email ->
  Forall Lifecycle.within_budget (emails st) ->
  Forall Lifecycle.within_budget
         (emails (snd (EmailController.process_email o email st))).
Proof.
  intros Hlt Hdb. unfold EmailController.process_email.
  pose proof (save_keeps_ledger Lifecycle.within_budget
                (EmailController.processing_fault o)
                (EmailController.processing_at o)) as Hsave.
  destruct (markAsProcessing_doc (EmailController.processing_fault o)
              (EmailController.processing_at o) email (emails st))
    as (_ & _ & Hs1 & Ha1 & Hm1 & _).
  unfold Email.markAsProcessing in Hsave, Hs1, Ha1, Hm1 |- *.
  match goal with
  | |- context [Email.save _ _ ?d (emails st)] =>
      specialize (Hsave d (emails st))
  end.
  destruct (Email.save _ _ _ (emails st)) as [[res1 e1] db1].
  unfold Lifecycle.doc in *. simpl in Hsave, Hs1, Ha1, Hm1.
  assert (Hle1 : Email.attempts e1 <= Email.maxAttempts e1) by lia.
  assert (Hdb1 : Forall Lifecycle.within_budget db1).
  { apply Hsave; [|exact Hdb].
    apply ready_within_budget; [lia|congruence]. }
  destruct res1 as [[]|error1].
  - cbv beta iota zeta.
    set (st1 := set_emails db1 st).
    assert (Hst1 : Forall Lifecycle.within_budget (emails st1))
      by exact Hdb1.
    destruct (EmailController.delivered o).
    + pose proof (save_keeps_ledger Lifecycle.within_budget
                    (EmailController.outcome_fault o)
                    (EmailController.outcome_at o)) as Hsave2.
      destruct (markAsSent_doc (EmailController.outcome_fault o)
                  (EmailController.outcome_at o) e1 (emails st1))
        as (_ & _ & Hs2 & Ha2 & Hm2 & _).
      unfold Email.markAsSent in Hsave2, Hs2, Ha2, Hm2 |- *.
      match goal with
      | |- context [Email.save _ _ ?d (emails st1)] =>
          specialize (Hsave2 d (emails st1))
      end.
      destruct (Email.save _ _ _ (emails st1)) as [[res2 e2] db2].
      unfold Lifecycle.doc in *. simpl in Hsave2, Hs2, Ha2, Hm2.
      destruct res2 as [[]|error2].
      * simpl. apply Hsave2; [|exact Hst1].
        apply ready_within_budget; [lia|congruence].
      * pose proof (on_error_ledger o (message_of error2) e2 st1) as He.
        destruct (EmailController.on_error o (message_of error2) e2 st1).
        simpl in *. apply He; [lia|exact Hst1].
    + pose proof (save_keeps_ledger Lifecycle.within_budget
                    (EmailController.outcome_fault o)
                    (EmailController.outcome_at o)) as Hsave2.
      destruct (markAsFailed_doc (EmailController.outcome_fault o)
                  (EmailController.outcome_at o)
                  "Simulated processing failure" e1 (emails st1))
        as (_ & _ & Hs2 & Ha2 & Hm2 & _).
      unfold Email.markAsFailed in Hsave2, Hs2, Ha2, Hm2 |- *.
      match goal with
      | |- context [Email.save _ _ ?d (emails st1)] =>
          specialize (Hsave2 d (emails st1))
      end.
      destruct (Email.save _ _ _ (emails st1)) as [[res2 e2] db2].
      unfold Lifecycle.doc in *. simpl in Hsave2, Hs2, Ha2, Hm2.
      destruct res2 as [[]|error2].
      * simpl. apply Hsave2; [|exact Hst1].
        apply ready_within_budget; [lia|congruence].
      * pose proof (on_error_ledger o (message_of error2) e2 st1) as He.
        destruct (EmailController.on_error o (message_of error2) e2 st1).
        simpl in *. apply He; [lia|exact Hst1].
  - pose proof (on_error_ledger o (message_of error1) e1 st) as He.
    destruct (EmailController.on_error o (message_of error1) e1 st).
    simpl in *. apply He; [lia|exact Hdb].
Qed.

Lemma process_all_ledger pendingEmails :
  forall oracle k st,
    (forall e, In e pendingEmails ->
               Email.attempts e < Email.maxAttempts e) ->
    Forall Lifecycle.within_budget (emails st) ->
    Forall Lifecycle.within_budget
           (emails (snd (EmailController.process_all oracle k
                           pendingEmails st))).
Proof.
  induction pendingEmails as [|email rest IH]; intros oracle k st Hall Hdb;
    [exact Hdb|].
  cbn [EmailController.process_all].
  pose proof (process_email_ledger (oracle k) email st
                (Hall email (or_introl eq_refl)) Hdb) as H1.
  destruct (EmailController.process_email (oracle k) email st)
    as [[entry counted] st1].
  simpl in H1.
  specialize (IH oracle (S k) st1
                (fun e He => Hall e (or_intror He)) H1).
  destruct (EmailController.process_all oracle (S k) rest st1)
    as [[processedCount results] st2].
  exact IH.
Qed.

Lemma getPendingEmails_pending now n db e :
  In e (Email.getPendingEmails now n db) ->
  In e db /\ Email.status e = Email.pending.
Proof.
  unfold Email.getPendingEmails, Email.limit. intros He.
  assert (Hs : In e (Email.sort_by Email.pending_le
                       (filter (fun e => Email.status_eqb (Email.status e)
                                           Email.pending
                                         && (Email.scheduledAt e <=? now))
                               db)))
    by (destruct n; [exact He|now apply in_firstn in He]).
  apply (Permutation_in _ (Permutation_sym (sort_by_perm _ _))) in Hs.
  apply filter_In in Hs. destruct Hs as [Hin Hb].
  apply andb_true_iff in Hb. destruct Hb as [Hb _].
  apply status_eqb_eq in Hb. auto.
Qed.

Lemma produced_fresh ev d n r oid fault :
  Dispatcher.produced ev = Some (d, n, r, oid, fault) ->
  data_attempts d = None /\ data_maxAttempts d = None.
Proof.
  destruct ev; simpl; intros H; try discriminate;
    injection H as <- _ _ _ _; auto.
Qed.

Lemma step_keeps_ledger ev st :
  Forall Lifecycle.within_budget (emails st) ->
  Forall Lifecycle.within_budget (emails (Dispatcher.step ev st)).
Proof.
  intros Hdb.
  destruct (Dispatcher.produced ev) as [[[[[d n] r] oid] fault]|] eqn:Hprod.
  - destruct (producer_step ev d n r oid fault st Hprod)
      as (_ & _ & _ & He).
    destruct (produced_fresh _ _ _ _ _ _ Hprod) as [Ha Hm].
    rewrite He. destruct fault; [exact Hdb|].
    apply save_keeps_ledger; [|exact Hdb].
    destruct (save_keeps None n (newEmail oid n d) (emails st))
      as (Hs & Hat & Hmax).
    unfold Lifecycle.within_budget. rewrite Hs, Hat, Hmax. simpl.
    rewrite Ha, Hm. lia.
  - destruct ev; try discriminate; cbn [Dispatcher.step].
    + now rewrite addToQueue_emails.
    + now rewrite processQueue_emails.
    + now rewrite settle_emails.
    + now rewrite delay_elapsed_emails.
    + exact Hdb.
    + (* retryFailedEmail *)
      unfold retryFailedEmail.
      destruct lookup; [exact Hdb|].
      destruct (Email.findById emailId (emails st)) as [email|];
        [|exact Hdb].
      destruct (Email.canRetry email) eqn:Hc; simpl; [|exact Hdb].
      apply canRetry_true in Hc. destruct Hc as [_ Hlt].
      pose proof (save_keeps_ledger Lifecycle.within_budget fault now)
        as Hsave.
      unfold Email.retry. apply Z.ltb_lt in Hlt. rewrite Hlt.
      apply Z.ltb_lt in Hlt.
      match goal with
      | |- context [Email.save fault now ?x (emails st)] =>
          specialize (Hsave x (emails st));
            destruct (save_keeps fault now x (emails st))
              as (Hs & Hat & Hmax)
      end.
      destruct (Email.save fault now _ (emails st))
        as [[[[]|error] email'] db]; [|exact Hdb].
      unfold Lifecycle.doc in *. simpl in Hsave, Hs, Hat, Hmax.
      simpl. rewrite addToQueue_emails. simpl.
      apply Hsave; [|exact Hdb].
      unfold Lifecycle.within_budget. rewrite Hs, Hat, Hmax. lia.
    + (* getFailedEmails *)
      unfold getFailedEmails. destruct fault; exact Hdb.
    + (* simulateEmailProcessing *)
      unfold EmailController.simulateEmailProcessing.
      destruct query; [exact Hdb|].
      pose proof (process_all_ledger
                    (Email.getPendingEmails now batchSize (emails st))
                    oracle O st) as Hall.
      destruct (Email.getPendingEmails now batchSize (emails st))
        as [|email rest] eqn:Hsel; [exact Hdb|].
      assert (Hready : forall e, In e (email :: rest) ->
                                 Email.attempts e < Email.maxAttempts e).
      { intros e He. rewrite <- Hsel in He.
        apply getPendingEmails_pending in He. destruct He as [Hin Hs].
        rewrite Forall_forall in Hdb. now apply (Hdb e Hin). }
      specialize (Hall Hready Hdb).
      destruct (EmailController.process_all oracle 0 (email :: rest) st)
        as [[processedCount results] st'].
      exact Hall.
    + (* cleanOldEmails *)
      simpl. rewrite Forall_forall in *. intros e He.
      apply filter_In in He. now apply Hdb.
Qed.

End LedgerBudget.

(** In every state the dispatcher reaches from a ledger whose records are
    within their budget (none counts more attempts than [maxAttempts], and
    a pending one counts fewer), the events taking place one after another,
    every record of the ledger is: enqueueing, the batch reconciler with
    any rejected writes, retries, drains and the retention sweep never
    leave a record with [attempts] above [maxAttempts]. *)
Theorem dispatcher_keeps_ledger_within_budget
    (ledger : Email.Collection) (st : EmailService.State) (e : Email.t) :
  Forall Lifecycle.within_budget ledger ->
  Dispatcher.reachable ledger st ->
  In e (EmailService.emails st) ->
  Email.attempts e <= Email.maxAttempts e
  /\ (Email.status e = Email.pending ->
      Email.attempts e < Email.maxAttempts e).
Proof.
  intros H0 Hr. revert e.
  assert (H : Forall Lifecycle.within_budget (EmailService.emails st)).
  { induction Hr as [|ev st Hr IH]; [exact H0|].
    now apply step_keeps_ledger. }
  intros e He. rewrite Forall_forall in H. exact (H e He).
Qed.

(** Alice's record after her welcome e-mail was enqueued and a batch in
    which every delivery fails was reconciled. *)
Lemma dispatcher_keeps_ledger_within_budget_witness :
  let st :=
    Dispatcher.step
      (Dispatcher.SimulateEmailProcessing 10 3000 None
         Samples.failing_batch)
      (Dispatcher.step
         (Dispatcher.SendWelcomeEmail Samples.iso_date Samples.alice
            1000 5 1 None)
         (EmailService.mkState [] false EmailService.Idle [] [])) in
  let e :=
    hd (Samples.ledger_record 0 Email.pending Email.low 0 0 0)
       (EmailService.emails st) in
  In e (EmailService.emails st)
  /\ Email.status e = Email.failed
  /\ Email.attempts e <= Email.maxAttempts e
  /\ (Email.status e = Email.pending ->
      Email.attempts e < Email.maxAttempts e).
Proof.
  intros st e.
  assert (Hr : Dispatcher.reachable [] st).
  { unfold st. do 2 apply Dispatcher.reach_step.
    apply Dispatcher.reach_start. }
  assert (Hin : In e (EmailService.emails st))
    by (vm_compute; left; reflexivity).
  split; [exact Hin|]. split; [vm_compute; reflexivity|].
  exact (dispatcher_keeps_ledger_within_budget [] st e (Forall_nil _)
           Hr Hin).
Defined.

(** * The task model *)

Section TaskStore.

Import Task.

Lemma task_findById_replace d db e :
  findById (id d) db = Some e ->
  findById (id d) (replace d db) = Some d.
Proof.
  unfold findById.
  induction db as [|x db IH]; simpl; [discriminate|].
  destruct (id x =? id d) eqn:Hx; simpl.
  - now rewrite Z.eqb_refl.
  - rewrite Hx. exact IH.
Qed.

Lemma task_in_replace d db e :
  findById (id d) db = Some e -> In d (replace d db).
Proof.
  unfold findById.
  induction db as [|x db IH]; simpl; [discriminate|].
  destruct (id x =? id d) eqn:Hx; simpl; auto.
Qed.

Lemma task_Forall_replace (P : t -> Prop) d db :
  P d -> Forall P db -> Forall P (replace d db).
Proof.
  intros Hd. induction 1 as [|x db Hx Hdb IH]; simpl; [constructor|].
  destruct (id x =? id d); constructor; auto.
Qed.

(** What every [save] guarantees: the attachments in memory are those it
    was given, a save that succeeds was given at most three, and nothing
    with more than three is written. *)
Lemma save_limit modified invalid fault now d db :
  let r := save modified invalid fault now d db in
  attachments (doc r) = attachments d
  /\ (fst (fst r) = Ok tt -> within_limit d)
  /\ (Forall within_limit db -> Forall within_limit (snd r)).
Proof.
  unfold save, doc, pre_save, within_limit.
  destruct invalid; [simpl; repeat split; auto; discriminate|].
  set (isNew := match findById (id d) db with
                | Some _ => false
                | None => true
                end).
  set (d1 := if isNew then set_createdAt now d else d).
  set (d2 := if modified || isNew then set_updatedAt now d1 else d1).
  assert (Ha : attachments d2 = attachments d).
  { unfold d2, d1. destruct (modified || isNew), isNew; reflexivity. }
  rewrite Ha.
  destruct (3 <? List.length (attachments d))%nat eqn:Hlen.
  - simpl. repeat split; auto. discriminate.
  - apply Nat.ltb_ge in Hlen.
    assert (Hd2 : (List.length (attachments d2) <= 3)%nat)
      by (now rewrite Ha).
    destruct fault; [simpl; repeat split; auto; discriminate|].
    destruct isNew; [|destruct modified]; simpl; repeat split; auto.
    + intros Hdb. apply Forall_app. split; [exact Hdb|now constructor].
    + intros Hdb. now apply task_Forall_replace.
Qed.

End TaskStore.

(** Whatever method is called on a task, with whatever arguments and
    faults: a collection in which no task has more than three attachments
    stays so, even if the document in memory was given more by other code;
    a document within the limit stays within it; and a call that succeeds
    leaves the document within it. *)
Theorem task_methods_keep_attachment_limit
    (c : Task.Call) (invalid fault : Fault) (this : Task.t)
    (db : Task.Collection) :
  Forall Task.within_limit db ->
  let r := Task.call c invalid fault this db in
  Forall Task.within_limit (snd r)
  /\ (Task.within_limit this -> Task.within_limit (Task.doc r))
  /\ (fst (fst r) = Ok tt -> Task.within_limit (Task.doc r)).
Proof.
  intros Hdb r. subst r.
  assert (Hsave : forall modified now d,
             (Task.within_limit this -> Task.within_limit d) ->
             let r := Task.save modified invalid fault now d db in
             Forall Task.within_limit (snd r)
             /\ (Task.within_limit this -> Task.within_limit (Task.doc r))
             /\ (fst (fst r) = Ok tt -> Task.within_limit (Task.doc r))).
  { intros modified now d Hd.
    destruct (save_limit modified invalid fault now d db)
      as (Ha & Hok & Hst).
    unfold Task.within_limit in *. cbv zeta. rewrite Ha.
    repeat split; auto. }
  destruct c; cbn [Task.call].
  - unfold Task.addAttachment.
    destruct (3 <=? List.length (Task.attachments this))%nat eqn:Hfull.
    + simpl. repeat split; auto. discriminate.
    + apply Hsave. intros _. apply Nat.leb_gt in Hfull.
      unfold Task.within_limit. simpl. rewrite length_app. simpl. lia.
  - unfold Task.removeAttachment. apply Hsave.
    unfold Task.within_limit. simpl. intros H.
    etransitivity; [apply filter_length_le|exact H].
  - unfold Task.updateStatus. apply Hsave.
    unfold Task.within_limit.
    destruct (Task.status_eqb newStatus Task.completed); simpl; auto.
    destruct (Task.status_eqb newStatus Task.completed && _); simpl; auto.
  - unfold Task.assignTask. apply Hsave. auto.
  - unfold Task.addComment. apply Hsave. auto.
  - unfold Task.softDelete. apply Hsave. auto.
  - unfold Task.restore. apply Hsave. auto.
Qed.

(** A third attachment added to the audit task. *)
Lemma task_methods_keep_attachment_limit_witness :
  let r := Task.call
             (Task.AddAttachment "65f000000000000000000003" 700
                Samples.report_data)
             None None Samples.audit_task Samples.tasks in
  Forall Task.within_limit (snd r)
  /\ (Task.within_limit Samples.audit_task -> Task.within_limit (Task.doc r))
  /\ (fst (fst r) = Ok tt -> Task.within_limit (Task.doc r)).
Proof.
  apply (task_methods_keep_attachment_limit
           (Task.AddAttachment "65f000000000000000000003" 700
              Samples.report_data)
           None None Samples.audit_task Samples.tasks).
  unfold Samples.tasks, Task.within_limit.
  repeat constructor.
Defined.

Section TaskMethods.

Import Task.

(** A save that validation, the hook and the store let through. *)
Lemma task_save_stored modified now d db stored :
  findById (id d) db = Some stored ->
  within_limit d ->
  save modified None None now d db
  = if modified
    then (Ok tt, set_updatedAt now d, replace (set_updatedAt now d) db)
    else (Ok tt, d, db).
Proof.
  intros Hf Hl. unfold save. rewrite Hf. unfold pre_save.
  assert (Hlen : forall x, attachments x = attachments d ->
                   (3 <? List.length (attachments x))%nat = false).
  { intros x ->. apply Nat.ltb_ge. exact Hl. }
  destruct modified; simpl; rewrite Hlen by reflexivity; reflexivity.
Qed.

Lemma task_save_keeps modified invalid fault now d db :
  let d' := doc (save modified invalid fault now d db) in
  status d' = status d
  /\ completedAt d' = completedAt d
  /\ comments d' = comments d.
Proof.
  unfold doc, save, pre_save.
  destruct invalid; [simpl; auto|].
  destruct (findById (id d) db), modified; simpl;
    match goal with
    | |- context [(3 <? ?n)%nat] => destruct (3 <? n)%nat
    end; simpl; destruct fault; simpl; auto.
Qed.

Lemma filter_drops_fresh oid (l : list Attachment) (a : Attachment) :
  attachment_id a = oid ->
  (forall x, In x l -> attachment_id x <> oid) ->
  filter (fun x => negb (String.eqb (attachment_id x) oid)) (l ++ [a]) = l.
Proof.
  intros Ha Hl. rewrite filter_app. simpl.
  rewrite Ha, String.eqb_refl. simpl. rewrite app_nil_r.
  induction l as [|x l IH]; simpl; [reflexivity|].
  assert (Hx : String.eqb (attachment_id x) oid = false).
  { apply String.eqb_neq. apply Hl. now left. }
  rewrite Hx. simpl. f_equal. apply IH. intros y Hy. apply Hl. now right.
Qed.

End TaskMethods.

(** An attachment added under a new id and removed again: both calls
    succeed, the first stores the task with the new attachment at the end
    of the list, and the second brings back the task as it was, except for
    [updatedAt]. *)
Theorem addAttachment_then_removeAttachment
    (oid : string) (t1 t2 : Z) (attachmentData : Task.AttachmentData)
    (this stored : Task.t) (db : Task.Collection) :
  Task.findById (Task.id this) db = Some stored ->
  (List.length (Task.attachments this) < 3)%nat ->
  (forall a, In a (Task.attachments this) -> Task.attachment_id a <> oid) ->
  let attachment :=
    Task.mkAttachment oid (Task.data_filename attachmentData)
      (Task.data_originalName attachmentData)
      (Task.data_path attachmentData) (Task.data_mimeType attachmentData)
      (Task.data_size attachmentData)
      (match Task.data_uploadedAt attachmentData with
       | Some d => d
       | None => t1
       end) in
  exists added db1 db2,
    Task.addAttachment oid t1 attachmentData None None this db
    = (Ok tt, added, db1)
    /\ Task.attachments added = Task.attachments this ++ [attachment]
    /\ Task.findById (Task.id this) db1 = Some added
    /\ Task.removeAttachment oid t2 None None added db1
       = (Ok tt, Task.set_updatedAt t2 this, db2)
    /\ Task.findById (Task.id this) db2
       = Some (Task.set_updatedAt t2 this).
Proof.
  intros Hf Hlen Hfresh attachment.
  set (added := Task.set_updatedAt t1
                  (Task.set_attachments
                     (Task.attachments this ++ [attachment]) this)).
  set (db1 := Task.replace added db).
  assert (Hf1 : Task.findById (Task.id this) db1 = Some added)
    by (apply (task_findById_replace added db stored); exact Hf).
  exists added, db1, (Task.replace (Task.set_updatedAt t2 this) db1).
  assert (Hadd : Task.addAttachment oid t1 attachmentData None None this db
                 = (Ok tt, added, db1)).
  { unfold Task.addAttachment.
    assert (Hb : (3 <=? List.length (Task.attachments this))%nat = false)
      by (apply Nat.leb_gt; exact Hlen).
    rewrite Hb. fold attachment.
    rewrite (task_save_stored true t1 _ db stored); [reflexivity|exact Hf|].
    unfold Task.within_limit. simpl. rewrite length_app. simpl. lia. }
  split; [exact Hadd|]. split; [reflexivity|]. split; [exact Hf1|].
  assert (Hkept : filter
                    (fun x => negb (String.eqb (Task.attachment_id x) oid))
                    (Task.attachments added)
                  = Task.attachments this).
  { apply (filter_drops_fresh oid); [reflexivity|exact Hfresh]. }
  split.
  - unfold Task.removeAttachment. rewrite Hkept.
    assert (Hm : negb (Nat.eqb (List.length (Task.attachments this))
                               (List.length (Task.attachments added)))
                 = true).
    { simpl. rewrite length_app. simpl.
      apply negb_true_iff. apply Nat.eqb_neq. lia. }
    rewrite Hm.
    rewrite (task_save_stored true t2 _ db1 added); [|exact Hf1|].
    + destruct this; reflexivity.
    + unfold Task.within_limit. simpl. lia.
  - apply (task_findById_replace (Task.set_updatedAt t2 this) db1 added).
    exact Hf1.
Qed.

(** A report is attached to the audit task and taken off again. *)
Lemma addAttachment_then_removeAttachment_witness :
  exists added db1 db2,
    Task.addAttachment "65f000000000000000000003" 700 Samples.report_data
      None None Samples.audit_task Samples.tasks
    = (Ok tt, added, db1)
    /\ Task.attachments added
       = [Samples.scan; Samples.photo;
          Task.mkAttachment "65f000000000000000000003" "report-3.pdf"
            "report.pdf" "uploads/report-3.pdf" "application/pdf" 1024 700]
    /\ Task.findById 40 db1 = Some added
    /\ Task.removeAttachment "65f000000000000000000003" 800 None None
         added db1
       = (Ok tt, Task.set_updatedAt 800 Samples.audit_task, db2)
    /\ Task.findById 40 db2
       = Some (Task.set_updatedAt 800 Samples.audit_task).
Proof.
  apply (addAttachment_then_removeAttachment "65f000000000000000000003"
           700 800 Samples.report_data Samples.audit_task
           Samples.audit_task Samples.tasks).
  - reflexivity.
  - simpl; lia.
  - intros a [<-|[<-|[]]]; discriminate.
Defined.

(** [updateStatus] sets [completedAt] when the new status is 'completed'
    and never clears it: the branch that would is tested after the status
    was overwritten.  A task that was completed and is reopened keeps the
    date of its completion, while its [completionTime] reads as null.  The
    call appends exactly one comment, whatever validation and the store do
    afterwards. *)
Theorem updateStatus_never_clears_completedAt
    (newStatus : Task.Status) (userId : Z) (oid : string) (now : Z)
    (invalid fault : Fault) (this : Task.t) (db : Task.Collection) :
  let d := Task.doc (Task.updateStatus newStatus userId oid now invalid
                       fault this db) in
  Task.status d = newStatus
  /\ Task.completedAt d
     = (if Task.status_eqb newStatus Task.completed
        then Some now else Task.completedAt this)
  /\ Task.comments d
     = Task.comments this
       ++ [Task.mkComment oid userId
             ("Status changed to " ++ Task.status_str newStatus) now]
  /\ (newStatus <> Task.completed -> Task.completionTime d = None)
  /\ (newStatus = Task.completed ->
      Task.completionTime d = Some (now - Task.createdAt d)).
Proof.
  intros d. subst d. unfold Task.updateStatus, Task.completionTime.
  destruct newStatus; cbn [Task.status_eqb andb negb Task.status
                             Task.set_status];
    match goal with
    | |- context [Task.save true invalid fault now ?x db] =>
        destruct (task_save_keeps true invalid fault now x db)
          as (Hs & Hc & Hm);
          rewrite Hs, Hc, Hm
    end;
    destruct this; cbn; repeat split; auto; intros H;
    try discriminate; now contradiction H.
Qed.

(** For any user and role, [getTasksByRole] returns tasks of the
    collection that are not deleted, in their order.  An 'employee' gets
    only tasks assigned to that user, a 'manager' those and the tasks that
    user created, and every other role, in particular every number that
    [ROLES] gives a user, gets every task that is not deleted. *)
Theorem getTasksByRole_by_role
    (userId : Z) (db : Task.Collection) :
  (forall role e, In e (Task.getTasksByRole userId role db) ->
                  In e db /\ Task.isDeleted e = false)
  /\ (forall e, In e (Task.getTasksByRole userId
                        (Task.RoleString "employee") db) <->
                In e db /\ Task.isDeleted e = false
                /\ Task.assignedTo e = Some userId)
  /\ (forall e, In e (Task.getTasksByRole userId
                        (Task.RoleString "manager") db) <->
                In e db /\ Task.isDeleted e = false
                /\ (Task.createdBy e = Some userId
                    \/ Task.assignedTo e = Some userId))
  /\ (forall n,
        Task.getTasksByRole userId (Task.RoleNumber n) db
        = filter (fun e => negb (Task.isDeleted e)) db)
  /\ (forall s, s <> "employee" -> s <> "manager" ->
        Task.getTasksByRole userId (Task.RoleString s) db
        = filter (fun e => negb (Task.isDeleted e)) db).
Proof.
  assert (Heq : forall a, Task.option_eqb a (Some userId) = true
                          <-> a = Some userId).
  { intros [x|]; simpl; [rewrite Z.eqb_eq|]; split; intros H;
      try discriminate; congruence. }
  split; [|split; [|split; [|split]]].
  - intros role e He. unfold Task.getTasksByRole in He.
    apply filter_In in He. destruct He as [Hin Hb].
    apply andb_true_iff in Hb. destruct Hb as [Hd _].
    apply negb_true_iff in Hd. auto.
  - intros e. unfold Task.getTasksByRole. rewrite filter_In. simpl.
    rewrite andb_true_iff, negb_true_iff, Heq. tauto.
  - intros e. unfold Task.getTasksByRole. rewrite filter_In. simpl.
    rewrite andb_true_iff, negb_true_iff, orb_true_iff, !Heq. tauto.
  - intros n. unfold Task.getTasksByRole. simpl.
    apply filter_ext. intros e. apply andb_true_r.
  - intros s He Hm. unfold Task.getTasksByRole.
    apply String.eqb_neq in He, Hm. rewrite He, Hm.
    apply filter_ext. intros e. apply andb_true_r.
Qed.

(** A task that is soft-deleted and restored: both calls succeed; while
    deleted the task is returned to no user under any role; restored, it is
    the task it was, except for [updatedAt], and is returned again. *)
Theorem softDelete_then_restore
    (userId t1 t2 : Z) (this stored : Task.t) (db : Task.Collection) :
  Task.findById (Task.id this) db = Some stored ->
  Task.isDeleted this = false ->
  Task.deletedAt this = None ->
  Task.deletedBy this = None ->
  Task.within_limit this ->
  exists deleted db1 db2,
    Task.softDelete userId t1 None None this db = (Ok tt, deleted, db1)
    /\ Task.findById (Task.id this) db1 = Some deleted
    /\ Task.deletedAt deleted = Some t1
    /\ Task.deletedBy deleted = Some userId
    /\ (forall u role, ~ In deleted (Task.getTasksByRole u role db1))
    /\ Task.restore t2 None None deleted db1
       = (Ok tt, Task.set_updatedAt t2 this, db2)
    /\ Task.findById (Task.id this) db2 = Some (Task.set_updatedAt t2 this)
    /\ (forall u n,
          In (Task.set_updatedAt t2 this)
             (Task.getTasksByRole u (Task.RoleNumber n) db2)).
Proof.
  intros Hf Hdel Hat Hby Hl.
  set (deleted :=
         Task.set_updatedAt t1
           (Task.set_deletedBy (Some userId)
              (Task.set_deletedAt (Some t1)
                 (Task.set_isDeleted true this)))).
  set (db1 := Task.replace deleted db).
  set (restored := Task.set_updatedAt t2 this).
  assert (Hf1 : Task.findById (Task.id this) db1 = Some deleted)
    by (apply (task_findById_replace deleted db stored); exact Hf).
  exists deleted, db1, (Task.replace restored db1).
  split.
  { unfold Task.softDelete. rewrite Hdel. cbn [andb negb].
    rewrite (task_save_stored true t1 _ db stored);
      [reflexivity|exact Hf|exact Hl]. }
  split; [exact Hf1|]. split; [reflexivity|]. split; [reflexivity|].
  split.
  { intros u role Hin. unfold Task.getTasksByRole in Hin.
    apply filter_In in Hin. destruct Hin as [_ Hb]. discriminate. }
  split.
  { unfold Task.restore.
    change (Task.isDeleted deleted) with true. cbn [orb].
    rewrite (task_save_stored true t2 _ db1 deleted); [|exact Hf1|exact Hl].
    unfold restored. destruct this; simpl in *. subst. reflexivity. }
  split.
  { apply (task_findById_replace restored db1 deleted). exact Hf1. }
  intros u n. unfold Task.getTasksByRole. apply filter_In. split.
  - apply (task_in_replace restored db1 deleted). exact Hf1.
  - simpl. rewrite Hdel. reflexivity.
Qed.

(** The audit task deleted by user 8 and restored. *)
Lemma softDelete_then_restore_witness :
  exists deleted db1 db2,
    Task.softDelete 8 700 None None Samples.audit_task Samples.tasks
    = (Ok tt, deleted, db1)
    /\ Task.findById 40 db1 = Some deleted
    /\ Task.deletedAt deleted = Some 700
    /\ Task.deletedBy deleted = Some 8
    /\ (forall u role, ~ In deleted (Task.getTasksByRole u role db1))
    /\ Task.restore 800 None None deleted db1
       = (Ok tt, Task.set_updatedAt 800 Samples.audit_task, db2)
    /\ Task.findById 40 db2
       = Some (Task.set_updatedAt 800 Samples.audit_task)
    /\ (forall u n,
          In (Task.set_updatedAt 800 Samples.audit_task)
             (Task.getTasksByRole u (Task.RoleNumber n) db2)).
Proof.
  apply (softDelete_then_restore 8 700 800 Samples.audit_task
           Samples.audit_task Samples.tasks); try reflexivity.
  unfold Task.within_limit. simpl. lia.
Defined.

(** ** The producers *)



(** ** Retry, when it fails *)

(** Whenever Retry throws, for whatever reason, it has changed nothing but
    the log: the ledger, the queue, the flag and the worker are as before
    and one error line is written.  What it throws is the store's rejection
    of the lookup or of the write, 'Email not found' when the id is
    unknown, or 'Email cannot be retried'; the 'Maximum retry attempts
    exceeded' of [Email.retry] never comes through, since [canRetry] is
    asked first. *)
Theorem retryFailedEmail_fails_cleanly
    (emailId now random : Z) (lookup fault : Fault)
    (st : EmailService.State) (error : Exception) :
  fst (EmailService.retryFailedEmail emailId now random lookup fault st)
  = Throw error ->
  let st' :=
    snd (EmailService.retryFailedEmail emailId now random lookup fault st)
  in
  EmailService.emails st' = EmailService.emails st
  /\ EmailService.emailQueue st' = EmailService.emailQueue st
  /\ EmailService.isProcessing st' = EmailService.isProcessing st
  /\ EmailService.worker st' = EmailService.worker st
  /\ EmailService.logs st'
     = EmailService.logs st ++ [(ERROR, "Error retrying failed email")]
  /\ ((exists msg, error = StoreError msg)
      \/ (error = Error "Email not found"
          /\ Email.findById emailId (EmailService.emails st) = None)
      \/ (error = Error "Email cannot be retried"
          /\ exists email,
               Email.findById emailId (EmailService.emails st) = Some email
               /\ Email.canRetry email = false)).
Proof.
  unfold EmailService.retryFailedEmail.
  destruct lookup as [msg|].
  { simpl. intros H. injection H as <-. repeat split; eauto. }
  destruct (Email.findById emailId (EmailService.emails st)) as [email|]
    eqn:Hf.
  2:{ simpl. intros H. injection H as <-. repeat split; auto. }
  destruct (Email.canRetry email) eqn:Hc.
  2:{ simpl. intros H. injection H as <-. repeat split; auto.
      right. right. split; [reflexivity|]. now exists email. }
  cbn [negb].
  apply canRetry_true in Hc. destruct Hc as [_ Hlt].
  pose proof (retry_eligible fault now email (EmailService.emails st) Hlt)
    as Hres.
  destruct (Email.retry fault now email (EmailService.emails st))
    as [[res email'] db'].
  simpl in Hres. destruct Hres as [->|[msg ->]].
  - simpl. discriminate.
  - simpl. intros H. injection H as <-. repeat split; eauto.
Qed.

(** Retry of an id that the ledger does not hold. *)
Lemma retryFailedEmail_fails_cleanly_witness :
  let st := EmailService.set_emails Samples.retryable Samples.idle in
  let st' := snd (EmailService.retryFailedEmail 99 500 9 None None st) in
  EmailService.emails st' = EmailService.emails st
  /\ EmailService.emailQueue st' = EmailService.emailQueue st
  /\ EmailService.isProcessing st' = EmailService.isProcessing st
  /\ EmailService.worker st' = EmailService.worker st
  /\ EmailService.logs st'
     = EmailService.logs st ++ [(ERROR, "Error retrying failed email")]
  /\ ((exists msg, Error "Email not found" = StoreError msg)
      \/ (Error "Email not found" = Error "Email not found"
          /\ Email.findById 99 (EmailService.emails st) = None)
      \/ (Error "Email not found" = Error "Email cannot be retried"
          /\ exists email,
               Email.findById 99 (EmailService.emails st) = Some email
               /\ Email.canRetry email = false)).
Proof.
  intros st.
  apply (retryFailedEmail_fails_cleanly 99 500 9 None None st
           (Error "Email not found")).
  reflexivity.
Defined.

(** ** Overdue records and the reconciler's query *)

(** When the batch has room for the whole ledger, the reconciler's query
    returns the records that the virtual [isOverdue] marks, and besides them
    only the pending records scheduled for this very instant: the virtual
    compares with [<], the query with [$lte]. *)
Theorem getPendingEmails_takes_the_overdue
    (now : Z) (n : nat) (db : Email.Collection) (e : Email.t) :
  (List.length db <= n)%nat ->
  In e (Email.getPendingEmails now n db)
  <-> In e db
      /\ (Email.isOverdue now e = true
          \/ (Email.status e = Email.pending
              /\ Email.scheduledAt e = now)).
Proof.
  intros Hn.
  set (due := fun e => Email.status_eqb (Email.status e) Email.pending
                       && (Email.scheduledAt e <=? now)).
  set (sorted := Email.sort_by Email.pending_le (filter due db)).
  assert (Hperm : Permutation (filter due db) sorted)
    by apply sort_by_perm.
  assert (Hres : Email.getPendingEmails now n db = sorted).
  { unfold Email.getPendingEmails, Email.limit. fold due. fold sorted.
    destruct n; [reflexivity|].
    apply firstn_all2. rewrite <- (Permutation_length Hperm).
    pose proof (filter_length_le due db). lia. }
  rewrite Hres.
  assert (Hdue : due e = true
                 <-> (Email.isOverdue now e = true
                      \/ (Email.status e = Email.pending
                          /\ Email.scheduledAt e = now))).
  { unfold due, Email.isOverdue.
    destruct (Email.status_eqb (Email.status e) Email.pending) eqn:Hs;
      simpl.
    - apply status_eqb_eq in Hs.
      rewrite Z.leb_le, Z.ltb_lt. split.
      + intros H.
        destruct (Z.eq_dec (Email.scheduledAt e) now) as [Heq|Hne];
          [right; split; assumption|left; lia].
      + intros [H|[_ H]]; lia.
    - split; [discriminate|].
      intros [H|[H _]]; [discriminate|].
      rewrite H in Hs. discriminate. }
  split.
  - intros He. apply (Permutation_in _ (Permutation_sym Hperm)) in He.
    apply filter_In in He. destruct He as [He Hd].
    split; [exact He|now apply Hdue].
  - intros [He Hd]. apply (Permutation_in _ Hperm).
    apply filter_In. split; [exact He|now apply Hdue].
Qed.

(** The query on the three pending records of the scenario, with a batch
    of ten. *)
Lemma getPendingEmails_takes_the_overdue_witness :
  let e := hd (EmailService.newEmail 0 0 Samples.welcome_data)
              Samples.urgent_low_normal in
  In e (Email.getPendingEmails 1000 10 Samples.urgent_low_normal)
  <-> In e Samples.urgent_low_normal
      /\ (Email.isOverdue 1000 e = true
          \/ (Email.status e = Email.pending
              /\ Email.scheduledAt e = 1000)).
Proof.
  intros e.
  apply (getPendingEmails_takes_the_overdue 1000 10
           Samples.urgent_low_normal e).
  vm_compute. lia.
Defined.

(** ** What a method touches *)

Section TaskLocality.

Import Task.

Lemma task_findById_app_other i d db :
  i <> id d -> findById i (db ++ [d]) = findById i db.
Proof.
  intros Hi. unfold findById.
  induction db as [|x db IH]; simpl.
  - assert (H : (id d =? i) = false) by (apply Z.eqb_neq; congruence).
    now rewrite H.
  - destruct (id x =? i); [reflexivity|exact IH].
Qed.

Lemma task_findById_replace_other i d db :
  i <> id d -> findById i (replace d db) = findById i db.
Proof.
  intros Hi. unfold findById.
  induction db as [|x db IH]; simpl; [reflexivity|].
  destruct (id x =? id d) eqn:Hx; simpl.
  - apply Z.eqb_eq in Hx.
    assert (H1 : (id d =? i) = false) by (apply Z.eqb_neq; congruence).
    assert (H2 : (id x =? i) = false) by (apply Z.eqb_neq; congruence).
    now rewrite H1, H2.
  - destruct (id x =? i); [reflexivity|exact IH].
Qed.

(** A save writes under the id of its document or not at all. *)
Lemma task_save_local modified invalid fault now d db :
  let r := save modified invalid fault now d db in
  (forall error, fst (fst r) = Throw error -> snd r = db)
  /\ (forall i, i <> id d -> findById i (snd r) = findById i db)
  /\ id (doc r) = id d.
Proof.
  unfold save, doc, pre_save.
  destruct invalid; [simpl; auto|].
  set (isNew := match findById (id d) db with
                | Some _ => false
                | None => true
                end).
  set (d1 := if isNew then set_createdAt now d else d).
  set (d2 := if modified || isNew then set_updatedAt now d1 else d1).
  assert (Hid : id d2 = id d).
  { unfold d2, d1. destruct (modified || isNew), isNew; reflexivity. }
  destruct (3 <? List.length (attachments d2))%nat; [simpl; auto|].
  destruct fault; [simpl; auto|].
  destruct isNew; [|destruct modified]; simpl;
    (split; [discriminate|]); (split; [|exact Hid]); auto.
  - intros i Hi. apply task_findById_app_other. now rewrite Hid.
  - intros i Hi. apply task_findById_replace_other. now rewrite Hid.
Qed.

End TaskLocality.

(** Whatever method is called on a task, with whatever arguments and
    faults: a call that throws leaves the collection as it was; no call
    changes what is stored under another id, or the id of the document; and
    the comments of the document are those it had, followed by at most one
    new comment: no method removes or rewrites a comment. *)
Theorem task_methods_touch_one_task
    (c : Task.Call) (invalid fault : Fault) (this : Task.t)
    (db : Task.Collection) :
  let r := Task.call c invalid fault this db in
  (forall error, fst (fst r) = Throw error -> snd r = db)
  /\ (forall i, i <> Task.id this ->
                Task.findById i (snd r) = Task.findById i db)
  /\ Task.id (Task.doc r) = Task.id this
  /\ exists added,
       Task.comments (Task.doc r) = Task.comments this ++ added
       /\ (List.length added <= 1)%nat.
Proof.
  assert (Hsave : forall modified now d added,
            Task.id d = Task.id this ->
            Task.comments d = Task.comments this ++ added ->
            (List.length added <= 1)%nat ->
            let r := Task.save modified invalid fault now d db in
            (forall error, fst (fst r) = Throw error -> snd r = db)
            /\ (forall i, i <> Task.id this ->
                          Task.findById i (snd r) = Task.findById i db)
            /\ Task.id (Task.doc r) = Task.id this
            /\ exists added,
                 Task.comments (Task.doc r) = Task.comments this ++ added
                 /\ (List.length added <= 1)%nat).
  { intros modified now d added Hid Hc Hlen r.
    destruct (task_save_local modified invalid fault now d db)
      as (H1 & H2 & H3).
    destruct (task_save_keeps modified invalid fault now d db)
      as (_ & _ & H4).
    fold r in H1, H2, H3, H4.
    split; [exact H1|]. split; [now rewrite <- Hid|].
    split; [now rewrite H3|].
    exists added. now rewrite H4. }
  destruct c; cbn [Task.call].
  - unfold Task.addAttachment.
    destruct (3 <=? List.length (Task.attachments this))%nat.
    + simpl. split; [intros; reflexivity|]. split; [reflexivity|].
      split; [reflexivity|].
      exists []. split; [now rewrite app_nil_r|simpl; lia].
    + apply (Hsave _ _ _ []); [reflexivity|now rewrite app_nil_r|simpl; lia].
  - unfold Task.removeAttachment.
    apply (Hsave _ _ _ []); [reflexivity|now rewrite app_nil_r|simpl; lia].
  - unfold Task.updateStatus.
    destruct newStatus;
      (eapply Hsave; [reflexivity|reflexivity|simpl; lia]).
  - unfold Task.assignTask.
    eapply Hsave; [reflexivity|reflexivity|simpl; lia].
  - unfold Task.addComment.
    eapply Hsave; [reflexivity|reflexivity|simpl; lia].
  - unfold Task.softDelete.
    apply (Hsave _ _ _ []); [reflexivity|now rewrite app_nil_r|simpl; lia].
  - unfold Task.restore.
    apply (Hsave _ _ _ []); [reflexivity|now rewrite app_nil_r|simpl; lia].
Qed.
